(** * Audio notes: the note repository of [app.py] over a model of its
      remote collaborators

    [app.py] is a Streamlit script.  It records audio, has it transcribed,
    lets the user edit the text, embeds the text and stores it as a point
    of one Qdrant collection; a second tab lists or searches the stored
    notes.

    The script is embedded as functions in a state-and-exception monad over
    a [World]: the remote Qdrant store, the memo of [st.cache_resource],
    the session dictionary, the configuration, an oracle that says which
    of the coming remote requests fail, and a log of what was requested.
    Streamlit calls that only draw on the page ([st.write], [st.info],
    [st.success], [st.error], [st.toast], [st.spinner], ...) are left out;
    [st.stop] and [st.rerun], which end the running script, are modelled
    as control signals that [except Exception] does not catch. *)

From Stdlib Require Import QArith.
From Stdlib.Strings Require Import Byte.
From stdpp Require Import gmap strings list fin_maps sorting.

Local Open Scope string_scope.
Local Open Scope Z_scope.
Local Open Scope list_scope.

(** ** Constants of the script *)

Definition EMBEDDING_MODEL : string := "text-embedding-3-large".
Definition EMBEDDING_DIM : Z := 3072.
Definition AUDIO_TRANSCRIBE_MODEL : string := "whisper-1".
Definition QDRANT_COLLECTION_NAME : string := "notes".

(** ** Data *)

#[global] Instance byte_eq_dec : EqDecision Byte.byte := Byte.byte_eq_dec.

(** The values the script keeps in [st.session_state]. *)
Inductive PyVal :=
| PyNone
| PyStr (s : string)
| PyBytes (b : list Byte.byte).

#[global] Instance PyVal_eq_dec : EqDecision PyVal.
Proof. solve_decision. Defined.

(** Python truthiness, as used by [if x], [not x] and [x or y]. *)
Definition truthy (v : PyVal) : bool :=
  match v with
  | PyNone => false
  | PyStr s => negb (String.eqb s "")
  | PyBytes b => negb (Nat.eqb (length b) 0)
  end.

Definition str_truthy (s : string) : bool := negb (String.eqb s "").

(** [dict.get(k)]: [None] for a missing key. *)
Definition py_get (d : gmap string PyVal) (k : string) : PyVal :=
  default PyNone (d !! k).

Inductive Distance := COSINE | EUCLID | DOT | MANHATTAN.

#[global] Instance Distance_eq_dec : EqDecision Distance.
Proof. solve_decision. Defined.

(** [VectorParams(size, distance)]. *)
Record VectorParams := mkVectorParams {
  vp_size : Z;
  vp_distance : Distance }.

(** [PointStruct(id, vector, payload)]. *)
Record PointStruct := mkPointStruct {
  ps_id : Z;
  ps_vector : list Q;
  ps_payload : gmap string string }.

(** A stored point: what the collection keeps under an id. *)
Record Point := mkPoint {
  pt_vector : list Q;
  pt_payload : gmap string string }.

(** A collection of the store: its schema and its points by id. *)
Record Collection := mkCollection {
  col_config : VectorParams;
  col_points : gmap Z Point }.

(** What [scroll] yields per point (payload, no vector) and what [search]
    yields per hit (payload and similarity score). *)
Record Record_ := mkRecord {
  rec_id : Z;
  rec_payload : gmap string string }.

Record ScoredPoint := mkScoredPoint {
  sp_id : Z;
  sp_score : Q;
  sp_payload : gmap string string }.

(** The dictionaries [{"text": ..., "score": ...}] built by
    [list_notes_from_db]; [None] as score is Python's [None]. *)
Record NoteResult := mkNoteResult {
  nr_text : string;
  nr_score : option Q }.

(** The handle returned by [QdrantClient(url, api_key, timeout)]. *)
Record QdrantClient := mkQdrantClient {
  qc_url : option string;
  qc_api_key : option string }.

(** The handle returned by [OpenAI(api_key)]. *)
Record OpenAIClient := mkOpenAIClient { oa_api_key : PyVal }.

(** Requests that leave the process.  A request is one call of a method of
    a client library, as the script makes it; how many times the library
    contacts the service within that call is not told apart. *)
Inductive Request :=
| ReqGetCollections
| ReqCollectionExists (name : string)
| ReqCreateCollection (name : string) (cfg : VectorParams)
| ReqCount (name : string)
| ReqUpsert (name : string) (pts : list PointStruct)
| ReqScroll (name : string) (limit : nat)
| ReqSearch (name : string) (query_vector : list Q) (limit : nat)
| ReqEmbeddings (input : list string) (model : string) (dimensions : Z)
| ReqTranscription (audio : list Byte.byte) (model : string) (response_format : string).

(** The two repository operations, logged when they are entered. *)
Inductive Operation := OpAddNote | OpListNotes.

Inductive Event :=
| EvRequest (r : Request)
| EvInvoke (op : Operation).

(** Python exceptions that the modelled calls raise; all of them derive from
    [Exception]. *)
Inductive Exn :=
| ConnectionFailed          (* the remote side did not answer *)
| NotFound                  (* the store has no such collection *)
| Conflict                  (* the collection exists already *)
| BadRequest                (* the store rejects the request, e.g. a vector of the wrong size *)
| KeyError (k : string)
| IndexError
| AttributeError            (* a method called on None *)
| TypeError.

(** Script control of Streamlit: [st.stop()] and [st.rerun()] end the run. *)
Inductive Control := CtlStop | CtlRerun.

Record World := mkWorld {
  qdrant : gmap string Collection;        (* the remote store *)
  outages : list bool;                    (* per coming client call: does it fail? *)
  client_cache : option (option QdrantClient);  (* memo of get_qdrant_client *)
  secrets : gmap string string;           (* st.secrets *)
  dotenv : gmap string string;            (* dotenv_values(".env") *)
  session_state : gmap string PyVal;      (* st.session_state *)
  log : list Event }.

Definition set_qdrant (f : gmap string Collection → gmap string Collection) (w : World) : World :=
  mkWorld (f (qdrant w)) (outages w) (client_cache w) (secrets w) (dotenv w)
          (session_state w) (log w).
Definition set_outages (o : list bool) (w : World) : World :=
  mkWorld (qdrant w) o (client_cache w) (secrets w) (dotenv w)
          (session_state w) (log w).
Definition set_client_cache (c : option (option QdrantClient)) (w : World) : World :=
  mkWorld (qdrant w) (outages w) c (secrets w) (dotenv w)
          (session_state w) (log w).
Definition set_session_state (f : gmap string PyVal → gmap string PyVal) (w : World) : World :=
  mkWorld (qdrant w) (outages w) (client_cache w) (secrets w) (dotenv w)
          (f (session_state w)) (log w).
Definition add_log (e : Event) (w : World) : World :=
  mkWorld (qdrant w) (outages w) (client_cache w) (secrets w) (dotenv w)
          (session_state w) (log w ++ [e]).

(** The requests in a log, oldest first. *)
Definition requests (l : list Event) : list Request :=
  omap (λ e, match e with EvRequest r => Some r | _ => None end) l.

Definition invocations (l : list Event) : list Operation :=
  omap (λ e, match e with EvInvoke op => Some op | _ => None end) l.

(** ** The monad of the script *)

Inductive Outcome (A : Type) :=
| Ret (a : A)
| Raise (e : Exn)
| Halt (c : Control).
Arguments Ret {A} a.
Arguments Raise {A} e.
Arguments Halt {A} c.

Definition M (A : Type) : Type := World → Outcome A * World.

Definition ret {A} (a : A) : M A := λ w, (Ret a, w).
Definition raise {A} (e : Exn) : M A := λ w, (Raise e, w).
Definition halt {A} (c : Control) : M A := λ w, (Halt c, w).

Definition bind {A B} (m : M A) (k : A → M B) : M B := λ w,
  match m w with
  | (Ret a, w') => k a w'
  | (Raise e, w') => (Raise e, w')
  | (Halt c, w') => (Halt c, w')
  end.

(** [try: m except Exception as e: h e].  The control signals of [st.stop]
    and [st.rerun] are not [Exception]s and pass through. *)
Definition try_except {A} (m : M A) (h : Exn → M A) : M A := λ w,
  match m w with
  | (Raise e, w') => h e w'
  | r => r
  end.

Definition get_world : M World := λ w, (Ret w, w).
Definition modify (f : World → World) : M unit := λ w, (Ret tt, f w).

Declare Scope script_scope.
Delimit Scope script_scope with script.
Notation "x <- c1 ;; c2" := (bind c1 (λ x, c2))
  (at level 100, c1 at next level, right associativity) : script_scope.
Notation "c1 ;; c2" := (bind c1 (λ _, c2))
  (at level 100, right associativity) : script_scope.
Local Open Scope script_scope.

(** [st.stop()] and [st.rerun()]. *)
Definition st_stop {A} : M A := halt CtlStop.
Definition st_rerun {A} : M A := halt CtlRerun.

Fixpoint for_each {A B} (f : A → M B) (l : list A) : M (list B) :=
  match l with
  | [] => ret []
  | x :: l' => y <- f x ;; ys <- for_each f l' ;; ret (y :: ys)
  end.

(** One request to a remote service, that is one call of a client method:
    it is logged, it uses up the head of the outage oracle, and it raises
    when the oracle says that the call fails, the client library having
    given up on the service.  An exhausted oracle means no further
    outage. *)
Definition send (r : Request) : M unit := λ w,
  let w' := add_log (EvRequest r) (set_outages (tail (outages w)) w) in
  match outages w with
  | true :: _ => (Raise ConnectionFailed, w')
  | _ => (Ret tt, w')
  end.

(** ** The vector store

    Modelled from the spec: the Qdrant service and its client library are
    not part of the repository.  These are the client operations the script
    calls, over the collections held in [qdrant], as the specification
    gives the store's interface: an existence check, a creation, an exact
    count, an upsert that replaces the point of the same id, a scroll that
    yields one bounded page, and a search that yields the hits of highest
    similarity first.  The store refuses vectors whose length is not the
    collection's size, and requests to a collection it does not have.
    The timeout of the client is not modelled; a request that is not
    answered fails. *)
Module Qdrant.

Record CountResult := mkCountResult { count : Z }.

Definition get_collections (c : QdrantClient) : M (list string) :=
  send ReqGetCollections ;;
  w <- get_world ;;
  ret (map fst (map_to_list (qdrant w))).

Definition collection_exists (c : QdrantClient) (collection_name : string) : M bool :=
  send (ReqCollectionExists collection_name) ;;
  w <- get_world ;;
  ret (bool_decide (is_Some (qdrant w !! collection_name))).

Definition create_collection (c : QdrantClient) (collection_name : string)
    (vectors_config : VectorParams) : M bool :=
  send (ReqCreateCollection collection_name vectors_config) ;;
  w <- get_world ;;
  match qdrant w !! collection_name with
  | Some _ => raise Conflict
  | None =>
      modify (set_qdrant (insert collection_name (mkCollection vectors_config ∅))) ;;
      ret true
  end.

(** The collection of that name, or the store's "not found". *)
Definition lookup_collection (collection_name : string) : M Collection :=
  w <- get_world ;;
  match qdrant w !! collection_name with
  | Some col => ret col
  | None => raise NotFound
  end.

(** The client's [count]; the answer holds the number in its field
    [count]. *)
Definition count_points (c : QdrantClient) (collection_name : string) (exact : bool)
    : M CountResult :=
  send (ReqCount collection_name) ;;
  col <- lookup_collection collection_name ;;
  ret (mkCountResult (Z.of_nat (size (col_points col)))).

Definition fits (cfg : VectorParams) (v : list Q) : bool :=
  bool_decide (Z.of_nat (length v) = vp_size cfg).

Definition put_point (pts : gmap Z Point) (p : PointStruct) : gmap Z Point :=
  <[ps_id p := mkPoint (ps_vector p) (ps_payload p)]> pts.

Definition upsert (c : QdrantClient) (collection_name : string)
    (points : list PointStruct) : M unit :=
  send (ReqUpsert collection_name points) ;;
  col <- lookup_collection collection_name ;;
  if forallb (λ p, fits (col_config col) (ps_vector p)) points
  then modify (set_qdrant (insert collection_name
                 (mkCollection (col_config col)
                               (foldl put_point (col_points col) points))))
  else raise BadRequest.

Definition id_le (a b : Z * Point) : Prop := a.1 ≤ b.1.

#[global] Instance id_le_dec a b : Decision (id_le a b).
Proof. unfold id_le. apply _. Defined.

(** [scroll] yields one page, in the order of the ids, and the id at which
    the next page would start. *)
Definition scroll (c : QdrantClient) (collection_name : string) (limit : nat)
    : M (list Record_ * option Z) :=
  send (ReqScroll collection_name limit) ;;
  col <- lookup_collection collection_name ;;
  let all := merge_sort id_le (map_to_list (col_points col)) in
  ret (map (λ ip, mkRecord ip.1 (pt_payload ip.2)) (take limit all),
       fst <$> head (drop limit all)).

Definition score_ge (a b : ScoredPoint) : Prop := (sp_score b <= sp_score a)%Q.

#[global] Instance score_ge_dec a b : Decision (score_ge a b).
Proof. unfold score_ge, Qle. apply _. Defined.

Section Search.
(** The similarity the store computes between the query vector and a
    stored vector under a collection's metric. *)
Variable similarity : Distance → list Q → list Q → Q.

Definition hits (col : Collection) (query_vector : list Q) : list ScoredPoint :=
  map (λ ip, mkScoredPoint ip.1
               (similarity (vp_distance (col_config col)) query_vector (pt_vector ip.2))
               (pt_payload ip.2))
      (map_to_list (col_points col)).

Definition search (c : QdrantClient) (collection_name : string)
    (query_vector : list Q) (limit : nat) : M (list ScoredPoint) :=
  send (ReqSearch collection_name query_vector limit) ;;
  col <- lookup_collection collection_name ;;
  if fits (col_config col) query_vector
  then ret (take limit (merge_sort score_ge (hits col query_vector)))
  else raise BadRequest.
End Search.

End Qdrant.

(** ** The OpenAI client

    The two calls the script makes.  What the provider answers is a
    parameter of the development.  The script builds the client with the
    key alone (line 49), so the library's own settings apply within a call,
    its repetition of a request that was not answered among them: the model
    has the call as a whole, which returns the provider's answer or raises,
    and an outage is the failure of the whole call. *)
Module OpenAI.

Section Provider.
(** What the provider answers to an embeddings request: the [embedding]
    fields of the response's [data]. *)
Variable embedding_provider : list string → string → Z → list (list Q).
(** What the provider answers to a transcription request: the [text]
    field of the response. *)
Variable transcription_provider : list Byte.byte → string → string.

Definition embeddings_create (c : OpenAIClient) (input : list string)
    (model : string) (dimensions : Z) : M (list (list Q)) :=
  send (ReqEmbeddings input model dimensions) ;;
  ret (embedding_provider input model dimensions).

Definition transcriptions_create (c : OpenAIClient) (file : list Byte.byte)
    (model : string) (response_format : string) : M string :=
  send (ReqTranscription file model response_format) ;;
  ret (transcription_provider file model).
End Provider.

End OpenAI.

(** ** The script *)

(** What the user did on the page before a run of the script: the values
    its widgets return in that run. *)
Record Inputs := mkInputs {
  in_clear_cache : bool;                   (* sidebar button *)
  in_api_key : string;                     (* text input for the OpenAI key *)
  in_recording : option (list Byte.byte);  (* the recorder's audio, exported as MP3;
                                              None when the recorder yields nothing *)
  in_transcribe : bool;                    (* button *)
  in_edit : option string;                 (* text typed in the text area, if any *)
  in_save : bool;                          (* button *)
  in_query : string;                       (* text input of the search tab *)
  in_search : bool }.                      (* button *)

Section App.
(** [hashlib.md5(b).hexdigest()]. *)
Variable md5 : list Byte.byte → string.
Variable embedding_provider : list string → string → Z → list (list Q).
Variable transcription_provider : list Byte.byte → string → string.
Variable similarity : Distance → list Q → list Q → Q.

(** [st.session_state[k]] and [st.session_state[k] = v]. *)
Definition session_item (k : string) : M PyVal :=
  w <- get_world ;;
  match session_state w !! k with
  | Some v => ret v
  | None => raise (KeyError k)
  end.

Definition session_set (k : string) (v : PyVal) : M unit :=
  modify (set_session_state (insert k v)).

(** [st.secrets[key]], or [None] when that raises. *)
Definition get_secret (key : string) : M (option string) :=
  w <- get_world ;; ret (secrets w !! key).

(** The module-level [env]: the values of [.env], with the two store
    settings taken from [st.secrets] when they are there. *)
Definition override (k : string) (src dst : gmap string string) : gmap string string :=
  match src !! k with
  | Some v => <[k := v]> dst
  | None => dst
  end.

Definition env (w : World) : gmap string string :=
  override "QDRANT_API_KEY" (secrets w) (override "QDRANT_URL" (secrets w) (dotenv w)).

(** [a or b], for what [get_secret] returns and a session value. *)
Definition py_or (a : option string) (b : PyVal) : PyVal :=
  match a with
  | Some s => if str_truthy s then PyStr s else b
  | None => b
  end.

Definition get_openai_client : M OpenAIClient :=
  secret <- get_secret "OPENAI_API_KEY" ;;
  w <- get_world ;;
  let api_key := py_or secret (py_get (session_state w) "openai_api_key") in
  if negb (truthy api_key) then st_stop
  else ret (mkOpenAIClient api_key).

Definition transcribe_audio (audio_bytes : list Byte.byte) : M string :=
  openai_client <- get_openai_client ;;
  OpenAI.transcriptions_create transcription_provider openai_client audio_bytes
    AUDIO_TRANSCRIBE_MODEL "verbose_json".

(** The body that [st.cache_resource] memoizes. *)
Definition connect_qdrant : M (option QdrantClient) :=
  try_except
    (w <- get_world ;;
     let client := mkQdrantClient (env w !! "QDRANT_URL") (env w !! "QDRANT_API_KEY") in
     _ <- Qdrant.get_collections client ;;
     ret (Some client))
    (λ _, ret None).

(** [@st.cache_resource]: the first result is kept, whatever it is, and
    handed out until the memo is cleared. *)
Definition get_qdrant_client : M (option QdrantClient) :=
  w <- get_world ;;
  match client_cache w with
  | Some c => ret c
  | None =>
      c <- connect_qdrant ;;
      modify (set_client_cache (Some c)) ;;
      ret c
  end.

(** [st.cache_resource.clear()]. *)
Definition cache_resource_clear : M unit := modify (set_client_cache None).

(** A method call on what [get_qdrant_client] returned. *)
Definition the_client (c : option QdrantClient) : M QdrantClient :=
  match c with
  | Some c => ret c
  | None => raise AttributeError
  end.

Definition assure_db_collection_exists : M unit :=
  qdrant_client <- get_qdrant_client ;;
  (if qdrant_client is None then st_stop else ret tt) ;;
  try_except
    (c <- the_client qdrant_client ;;
     present <- Qdrant.collection_exists c QDRANT_COLLECTION_NAME ;;
     if negb present
     then Qdrant.create_collection c QDRANT_COLLECTION_NAME
            (mkVectorParams EMBEDDING_DIM COSINE) ;;
          ret tt
     else ret tt)
    (λ _, st_stop).

Definition get_embedding (text : string) : M (list Q) :=
  openai_client <- get_openai_client ;;
  result <- OpenAI.embeddings_create embedding_provider openai_client [text]
              EMBEDDING_MODEL EMBEDDING_DIM ;;
  match result with
  | d :: _ => ret d
  | [] => raise IndexError
  end.

(** The [try] block of [add_note_to_db]. *)
Definition add_note_body (note_text : string) : M bool :=
  qdrant_client <- get_qdrant_client ;;
  match qdrant_client with
  | None => ret false
  | Some c =>
      points_count <- Qdrant.count_points c QDRANT_COLLECTION_NAME true ;;
      vector <- get_embedding note_text ;;
      Qdrant.upsert c QDRANT_COLLECTION_NAME
        [mkPointStruct (Qdrant.count points_count + 1) vector {["text" := note_text]}] ;;
      ret true
  end.

Definition add_note_to_db (note_text : string) : M bool :=
  modify (add_log (EvInvoke OpAddNote)) ;;
  try_except (add_note_body note_text) (λ _, ret false).

(** [note.payload["text"]]. *)
Definition payload_text (payload : gmap string string) : M string :=
  match payload !! "text" with
  | Some t => ret t
  | None => raise (KeyError "text")
  end.

(** [not query], for the [None] default and for a string. *)
Definition no_query (query : option string) : bool :=
  match query with
  | None => true
  | Some q => negb (str_truthy q)
  end.

(** The [try] block of [list_notes_from_db]. *)
Definition list_notes_body (query : option string) : M (list NoteResult) :=
  qdrant_client <- get_qdrant_client ;;
  match qdrant_client with
  | None => ret []
  | Some c =>
      if no_query query
      then
        page <- Qdrant.scroll c QDRANT_COLLECTION_NAME 10 ;;
        for_each (λ note, t <- payload_text (rec_payload note) ;;
                      ret (mkNoteResult t None))
             page.1
      else
        vector <- get_embedding (default "" query) ;;
        notes <- Qdrant.search similarity c QDRANT_COLLECTION_NAME vector 10 ;;
        for_each (λ note, t <- payload_text (sp_payload note) ;;
                      ret (mkNoteResult t (Some (sp_score note))))
             notes
  end.

Definition list_notes_from_db (query : option string) : M (list NoteResult) :=
  modify (add_log (EvInvoke OpListNotes)) ;;
  try_except (list_notes_body query) (λ _, ret []).

(** *** The page *)

Definition as_str (v : PyVal) : string :=
  match v with PyStr s => s | _ => "" end.

(** What the add tab does with freshly recorded audio: it keeps the bytes
    and, when their MD5 is not the one the session remembers, empties the
    transcript and the edited text and remembers the new MD5. *)
Definition capture_audio (mp3 : list Byte.byte) (ss : gmap string PyVal)
    : gmap string PyVal :=
  let ss := <["note_audio_bytes" := PyBytes mp3]> ss in
  let current_md5 := md5 mp3 in
  if bool_decide (py_get ss "note_audio_bytes_md5" ≠ PyStr current_md5)
  then <["note_audio_bytes_md5" := PyStr current_md5]>
         (<["note_text" := PyStr ""]>
            (<["note_audio_text" := PyStr ""]> ss))
  else ss.

(** The form is cleared after a note was saved. *)
Definition clear_form (ss : gmap string PyVal) : gmap string PyVal :=
  <["note_audio_bytes_md5" := PyNone]>
    (<["note_audio_text" := PyStr ""]>
       (<["note_text" := PyStr ""]> ss)).

(** [if k not in st.session_state: st.session_state[k] = v]. *)
Definition session_default (k : string) (v : PyVal) (ss : gmap string PyVal)
    : gmap string PyVal :=
  match ss !! k with
  | Some _ => ss
  | None => <[k := v]> ss
  end.

Definition init_session : M unit :=
  modify (set_session_state (session_default "note_audio_bytes_md5" PyNone)) ;;
  modify (set_session_state (session_default "note_audio_bytes" PyNone)) ;;
  modify (set_session_state (session_default "note_text" (PyStr ""))) ;;
  modify (set_session_state (session_default "note_audio_text" (PyStr ""))).

(** The script does not go on without an OpenAI key in the session. *)
Definition api_key_gate (i : Inputs) : M unit :=
  w <- get_world ;;
  (if negb (truthy (py_get (session_state w) "openai_api_key"))
   then match env w !! "OPENAI_API_KEY" with
        | Some k => session_set "openai_api_key" (PyStr k)
        | None =>
            session_set "openai_api_key" (PyStr (in_api_key i)) ;;
            if str_truthy (in_api_key i) then st_rerun else ret tt
        end
   else ret tt) ;;
  w <- get_world ;;
  if negb (truthy (py_get (session_state w) "openai_api_key")) then st_stop else ret tt.

Definition add_tab (i : Inputs) : M unit :=
  match in_recording i with
  | None => ret tt
  | Some mp3 =>
      modify (set_session_state (capture_audio mp3)) ;;
      (if in_transcribe i
       then t <- transcribe_audio mp3 ;;
            session_set "note_audio_text" (PyStr t)
       else ret tt) ;;
      audio_text <- session_item "note_audio_text" ;;
      (if truthy audio_text
       then session_set "note_text" (PyStr (default (as_str audio_text) (in_edit i)))
       else ret tt) ;;
      note_text <- session_item "note_text" ;;
      if truthy note_text && in_save i
      then saved <- add_note_to_db (as_str note_text) ;;
           if saved then modify (set_session_state clear_form) else ret tt
      else ret tt
  end.

(** The notes the search tab shows. *)
Definition search_tab (i : Inputs) : M (list NoteResult) :=
  if in_search i then list_notes_from_db (Some (in_query i)) else ret [].

(** The part of a run that comes before the tabs. *)
Definition bootstrap (i : Inputs) : M unit :=
  (if in_clear_cache i then cache_resource_clear ;; st_rerun else ret tt) ;;
  api_key_gate i ;;
  init_session ;;
  assure_db_collection_exists.

(** One run of the script. *)
Definition main (i : Inputs) : M (list NoteResult) :=
  bootstrap i ;;
  add_tab i ;;
  search_tab i.

(** The world after one run, and after a series of runs. *)
Definition run (w : World) (i : Inputs) : World := (main i w).2.
Definition runs (w : World) (ins : list Inputs) : World := foldl run w ins.
End App.

(** ** Sample collaborators and worlds

    Small, computable stand-ins for the remote providers, used to run the
    script on concrete worlds. *)

Definition sample_md5 (b : list Byte.byte) : string := String.string_of_list_byte b.

(** An embedding whose first coordinate is the length of the text. *)
Definition sample_embedding (input : list string) (model : string) (dimensions : Z)
    : list (list Q) :=
  map (λ t, inject_Z (Z.of_nat (String.length t))
            :: replicate (Z.to_nat dimensions - 1) 0%Q) input.

Definition sample_transcription (audio : list Byte.byte) (model : string) : string :=
  "buy milk".

Fixpoint dot (a b : list Q) : Q :=
  match a, b with
  | x :: a', y :: b' => (x * y + dot a' b')%Q
  | _, _ => 0%Q
  end.

Definition sample_similarity (d : Distance) (a b : list Q) : Q := dot a b.

(** A session that holds an OpenAI key, no store collection, nothing cached. *)
Definition fresh_world : World :=
  mkWorld ∅ [] None ∅ ∅ {["openai_api_key" := PyStr "sk-test"]} [].

(** The same after the bootstrap created the collection. *)
Definition booted_world : World := (assure_db_collection_exists fresh_world).2.

(** A collection whose only point has id 2, as left behind when the point
    of id 1 was deleted. *)
Definition gap_world : World :=
  set_qdrant (λ _, {[QDRANT_COLLECTION_NAME :=
                       mkCollection (mkVectorParams EMBEDDING_DIM COSINE)
                         {[2 := mkPoint (replicate 3072 0%Q) {["text" := "old note"]}]}]})
             booted_world.

(** A world whose store does not answer the next request. *)
Definition down_world : World := set_outages [true] fresh_world.

Definition no_input : Inputs := mkInputs false "" None false None false "" false.
Definition search_input (q : string) : Inputs :=
  mkInputs false "" None false None false q true.
Definition clear_input : Inputs := mkInputs true "" None false None false "" false.


(** ** Properties *)

(** *** The log *)

Lemma requests_app l1 l2 : requests (l1 ++ l2) = requests l1 ++ requests l2.
Proof. apply omap_app. Qed.

Lemma invocations_app l1 l2 : invocations (l1 ++ l2) = invocations l1 ++ invocations l2.
Proof. apply omap_app. Qed.

(** *** The primitives *)

(** The world after a request was sent. *)
Definition sent (r : Request) (w : World) : World :=
  add_log (EvRequest r) (set_outages (tail (outages w)) w).

(** The next request meets an outage. *)
Definition outage_next (w : World) : bool :=
  match outages w with
  | true :: _ => true
  | _ => false
  end.

Lemma send_spec r w :
  send r w = (if outage_next w then Raise ConnectionFailed else Ret tt, sent r w).
Proof. unfold send, outage_next, sent. by destruct (outages w) as [|[] ?]. Qed.

(** A loop over pure per-item steps yields one result per item, in order. *)
Lemma for_each_pure {A B} (f : A → M B) (g : A → option B) (l : list A) w :
  (∀ x w0, f x w0 = (match g x with Some y => Ret y | None => Raise (KeyError "text") end, w0)) →
  for_each f l w =
    (match mapM g l with
     | Some ys => Ret ys
     | None => Raise (KeyError "text")
     end, w).
Proof.
  intros Hf. induction l as [|x l IH]; [done|].
  cbn [for_each]. unfold bind at 1. rewrite Hf.
  cbn. destruct (g x) as [y|]; [|done]. cbn.
  unfold bind at 1. rewrite IH. by destruct (mapM g l).
Qed.

Lemma sent_requests r w : requests (log (sent r w)) = requests (log w) ++ [r].
Proof. unfold sent. cbn. by rewrite requests_app. Qed.

Lemma sent_qdrant r w : qdrant (sent r w) = qdrant w.
Proof. done. Qed.

Lemma sent_outages r w : outages (sent r w) = tail (outages w).
Proof. done. Qed.


(** *** Getting the store client *)

(** The client [get_qdrant_client] hands out in a world: the memoized one,
    or the outcome of a first connection attempt. *)
Definition client_of (w : World) : option QdrantClient :=
  match client_cache w with
  | Some c => c
  | None =>
      if outage_next w then None
      else Some (mkQdrantClient (env w !! "QDRANT_URL") (env w !! "QDRANT_API_KEY"))
  end.

(** The world after [get_qdrant_client]. *)
Definition connected (w : World) : World :=
  match client_cache w with
  | Some _ => w
  | None => set_client_cache (Some (client_of w)) (sent ReqGetCollections w)
  end.

(** The requests a call of [get_qdrant_client] sends. *)
Definition connect_requests (w : World) : list Request :=
  match client_cache w with
  | Some _ => []
  | None => [ReqGetCollections]
  end.

Lemma get_qdrant_client_spec w :
  get_qdrant_client w = (Ret (client_of w), connected w).
Proof.
  unfold get_qdrant_client, client_of, connected, bind, get_world.
  destruct (client_cache w) as [c|] eqn:Hc; [done|].
  unfold connect_qdrant, try_except, bind, get_world, Qdrant.get_collections, bind.
  rewrite send_spec. unfold client_of. rewrite Hc.
  by destruct (outage_next w).
Qed.

Lemma connected_qdrant w : qdrant (connected w) = qdrant w.
Proof. unfold connected. by destruct (client_cache w). Qed.

Lemma connected_session w : session_state (connected w) = session_state w.
Proof. unfold connected. by destruct (client_cache w). Qed.

Lemma connected_secrets w : secrets (connected w) = secrets w.
Proof. unfold connected. by destruct (client_cache w). Qed.

Lemma connected_requests w :
  requests (log (connected w)) = requests (log w) ++ connect_requests w.
Proof.
  unfold connected, connect_requests. destruct (client_cache w); cbn.
  - by rewrite app_nil_r.
  - by rewrite requests_app.
Qed.

Lemma connected_invocations w :
  invocations (log (connected w)) = invocations (log w).
Proof.
  unfold connected. destruct (client_cache w); cbn; [done|].
  by rewrite invocations_app, app_nil_r.
Qed.

(** After [get_qdrant_client] the memo holds what it returned. *)
Lemma connected_cache w : client_cache (connected w) = Some (client_of w).
Proof.
  unfold connected, client_of. by destruct (client_cache w) as [c|] eqn:Hc.
Qed.


Section Properties.
Variable md5 : list Byte.byte → string.
Variable embedding_provider : list string → string → Z → list (list Q).
Variable transcription_provider : list Byte.byte → string → string.
Variable similarity : Distance → list Q → list Q → Q.

Local Abbreviation embed := (get_embedding embedding_provider).
Local Abbreviation add_note := (add_note_to_db embedding_provider).
Local Abbreviation list_notes := (list_notes_from_db embedding_provider similarity).

Ltac script :=
  unfold bind, ret, raise, halt, modify, get_world, try_except, st_stop, st_rerun.

(** *** Listing without a query *)

(** The page the store yields to [scroll] with limit 10. *)
Definition scroll_page (col : Collection) : list Record_ :=
  map (λ ip, mkRecord ip.1 (pt_payload ip.2))
      (take 10 (merge_sort Qdrant.id_le (map_to_list (col_points col)))).

Definition unranked (note : Record_) : option NoteResult :=
  t ← rec_payload note !! "text"; Some (mkNoteResult t None).

(** What [list_notes_from_db] returns when it has no query. *)
Definition listed (w : World) : list NoteResult :=
  match client_of w, qdrant w !! QDRANT_COLLECTION_NAME with
  | Some _, Some col =>
      if outage_next (connected w) then []
      else default [] (mapM unranked (scroll_page col))
  | _, _ => []
  end.

Definition scroll_requests (w : World) : list Request :=
  match client_of w with
  | Some _ => [ReqScroll QDRANT_COLLECTION_NAME 10]
  | None => []
  end.

Lemma scroll_spec c name limit w :
  Qdrant.scroll c name limit w =
    (if outage_next w then Raise ConnectionFailed
     else match qdrant w !! name with
          | Some col =>
              let all := merge_sort Qdrant.id_le (map_to_list (col_points col)) in
              Ret (map (λ ip, mkRecord ip.1 (pt_payload ip.2)) (take limit all),
                   fst <$> head (drop limit all))
          | None => Raise NotFound
          end,
     sent (ReqScroll name limit) w).
Proof.
  unfold Qdrant.scroll, Qdrant.lookup_collection. unfold bind at 1.
  rewrite send_spec. destruct (outage_next w); [done|].
  script. cbn. by destruct (qdrant w !! name).
Qed.

Lemma list_notes_unranked query w :
  no_query query = true →
  ∃ w', list_notes query w = (Ret (listed w), w')
        ∧ requests (log w') = requests (log w) ++ connect_requests w ++ scroll_requests w
        ∧ qdrant w' = qdrant w.
Proof.
  intros Hq.
  unfold list_notes_from_db, list_notes_body, listed, scroll_requests.
  unfold bind at 1. unfold modify at 1. unfold try_except.
  unfold bind at 1. rewrite get_qdrant_client_spec.
  set (w0 := add_log (EvInvoke OpListNotes) w).
  assert (Hreq : requests (log (connected w0)) = requests (log w) ++ connect_requests w).
  { rewrite connected_requests. subst w0. cbn. by rewrite requests_app, app_nil_r. }
  assert (Hcl : client_of w0 = client_of w) by done.
  assert (Hqd : qdrant (connected w0) = qdrant w) by (by rewrite connected_qdrant).
  assert (Hout : outage_next (connected w0) = outage_next (connected w)).
  { unfold connected, outage_next. subst w0. cbn. by destruct (client_cache w). }
  rewrite Hcl. destruct (client_of w) as [c|].
  - rewrite Hq. unfold bind at 1. rewrite scroll_spec, Hout, Hqd.
    destruct (outage_next (connected w)).
    { eexists; split; [by destruct (qdrant w !! _)|].
      cbn. by rewrite requests_app, Hreq, <-app_assoc. }
    destruct (qdrant w !! QDRANT_COLLECTION_NAME) as [col|] eqn:Hcol.
    + cbn [fst]. rewrite (for_each_pure _ unranked).
      * eexists; split.
        { unfold scroll_page. by destruct (mapM unranked _). }
        cbn. by rewrite requests_app, Hreq, <-app_assoc.
      * intros x w1. unfold payload_text, unranked. script.
        by destruct (rec_payload x !! "text").
    + eexists; split; [done|]. cbn. by rewrite requests_app, Hreq, <-app_assoc.
  - eexists; split; [done|].
    by rewrite Hreq, app_nil_r.
Qed.


Lemma listed_length w : (length (listed w) ≤ 10)%nat.
Proof.
  unfold listed. destruct (client_of w); [|cbn; lia].
  destruct (qdrant w !! _) as [col|]; [|cbn; lia].
  destruct (outage_next _); [cbn; lia|].
  destruct (mapM unranked (scroll_page col)) as [ys|] eqn:Hys; [|cbn; lia].
  apply mapM_Some_1, Forall2_length in Hys. cbn. rewrite <-Hys. unfold scroll_page.
  rewrite length_map, length_take. lia.
Qed.

Lemma listed_unranked w : Forall (λ r, nr_score r = None) (listed w).
Proof.
  unfold listed. destruct (client_of w); [|done].
  destruct (qdrant w !! _) as [col|]; [|done].
  destruct (outage_next _); [done|].
  destruct (mapM unranked (scroll_page col)) as [ys|] eqn:Hys; [|done].
  apply mapM_Some_1 in Hys. cbn.
  induction Hys as [|x y l k Hxy _ IH]; constructor; [|done].
  unfold unranked in Hxy. destruct (rec_payload x !! "text"); by simplify_eq/=.
Qed.

(** The requests of the unranked path: the connection check, when no
    client is memoized, and one scroll with limit 10. *)
Definition scroll_only (r : Request) : Prop :=
  r = ReqGetCollections ∨ r = ReqScroll QDRANT_COLLECTION_NAME 10.

Lemma scroll_only_requests w :
  Forall scroll_only (connect_requests w ++ scroll_requests w).
Proof.
  unfold connect_requests, scroll_requests, scroll_only.
  destruct (client_cache w), (client_of w); cbn;
    repeat first [apply Forall_nil_2 | apply Forall_cons_2]; auto.
Qed.


(** C4: without a query, [list_notes_from_db] returns at most 10 results,
    each with score [None]; they are the texts of one scroll page of limit
    10, and the only requests it sends are the connection check (when no
    client is memoized) and that scroll: no embedding is asked for. *)
Theorem list_notes_without_query w :
  ∃ rs w' new,
    list_notes None w = (Ret rs, w')
    ∧ (length rs ≤ 10)%nat
    ∧ Forall (λ r, nr_score r = None) rs
    ∧ rs = listed w
    ∧ requests (log w') = requests (log w) ++ new
    ∧ Forall scroll_only new.
Proof.
  destruct (list_notes_unranked None w) as (w' & Hrun & Hreq & _); [done|].
  exists (listed w), w', (connect_requests w ++ scroll_requests w).
  split_and!; auto using listed_length, listed_unranked, scroll_only_requests.
Qed.



(** *** Searching with a query *)

(** The key [get_openai_client] settles on. *)
Definition openai_key (w : World) : PyVal :=
  py_or (secrets w !! "OPENAI_API_KEY") (py_get (session_state w) "openai_api_key").

Lemma get_openai_client_spec w :
  get_openai_client w =
    if truthy (openai_key w) then (Ret (mkOpenAIClient (openai_key w)), w)
    else (Halt CtlStop, w).
Proof.
  unfold get_openai_client, get_secret, openai_key. script.
  by destruct (truthy _).
Qed.

Lemma get_embedding_spec text w :
  embed text w =
    if truthy (openai_key w)
    then (if outage_next w then Raise ConnectionFailed
          else match embedding_provider [text] EMBEDDING_MODEL EMBEDDING_DIM with
               | d :: _ => Ret d
               | [] => Raise IndexError
               end,
          sent (ReqEmbeddings [text] EMBEDDING_MODEL EMBEDDING_DIM) w)
    else (Halt CtlStop, w).
Proof.
  unfold get_embedding. unfold bind at 1. rewrite get_openai_client_spec.
  destruct (truthy (openai_key w)); [|done].
  unfold OpenAI.embeddings_create. unfold bind at 1. unfold bind at 1.
  rewrite send_spec. destruct (outage_next w); [done|].
  cbn. by destruct (embedding_provider _ _ _).
Qed.

Lemma search_spec c name v limit w :
  Qdrant.search similarity c name v limit w =
    (if outage_next w then Raise ConnectionFailed
     else match qdrant w !! name with
          | Some col =>
              if Qdrant.fits (col_config col) v
              then Ret (take limit (merge_sort Qdrant.score_ge (Qdrant.hits similarity col v)))
              else Raise BadRequest
          | None => Raise NotFound
          end,
     sent (ReqSearch name v limit) w).
Proof.
  unfold Qdrant.search, Qdrant.lookup_collection. unfold bind at 1.
  rewrite send_spec. destruct (outage_next w); [done|].
  script. cbn. destruct (qdrant w !! name) as [col|]; [|done].
  by destruct (Qdrant.fits _ _).
Qed.

(** The hits the store yields to a search with limit 10. *)
Definition top_hits (col : Collection) (v : list Q) : list ScoredPoint :=
  take 10 (merge_sort Qdrant.score_ge (Qdrant.hits similarity col v)).

Definition ranked_note (note : ScoredPoint) : option NoteResult :=
  t ← sp_payload note !! "text"; Some (mkNoteResult t (Some (sp_score note))).

(** The vector the provider answers for a text; empty when it answers
    with no data. *)
Definition embedding_of (text : string) : list Q :=
  default [] (head (embedding_provider [text] EMBEDDING_MODEL EMBEDDING_DIM)).

(** What the search path returns once the query is embedded as [v], in
    the world [w] in which the search request is sent. *)
Definition found (v : list Q) (w : World) : list NoteResult :=
  if outage_next w then []
  else match qdrant w !! QDRANT_COLLECTION_NAME with
       | Some col =>
           if Qdrant.fits (col_config col) v
           then default [] (mapM ranked_note (top_hits col v))
           else []
       | None => []
       end.

Lemma list_notes_ranked q w :
  q ≠ "" →
  let w0 := connected (add_log (EvInvoke OpListNotes) w) in
  let w1 := sent (ReqEmbeddings [q] EMBEDDING_MODEL EMBEDDING_DIM) w0 in
  list_notes (Some q) w =
    match client_of w with
    | None => (Ret [], w0)
    | Some _ =>
        if truthy (openai_key w)
        then if outage_next w0 then (Ret [], w1)
             else match embedding_provider [q] EMBEDDING_MODEL EMBEDDING_DIM with
                  | [] => (Ret [], w1)
                  | v :: _ => (Ret (found v w1), sent (ReqSearch QDRANT_COLLECTION_NAME v 10) w1)
                  end
        else (Halt CtlStop, w0)
    end.
Proof.
  intros Hq w0 w1.
  assert (Hnq : no_query (Some q) = false).
  { cbn. unfold str_truthy. rewrite negb_involutive.
    by apply String.eqb_neq. }
  unfold list_notes_from_db, list_notes_body.
  unfold bind at 1. unfold modify at 1. unfold try_except.
  unfold bind at 1. rewrite get_qdrant_client_spec. fold w0.
  change (client_of (add_log (EvInvoke OpListNotes) w)) with (client_of w).
  destruct (client_of w) as [c|]; [|done].
  rewrite Hnq. change (default "" (Some q)) with q.
  unfold bind at 1. rewrite get_embedding_spec.
  assert (Hkey : openai_key w0 = openai_key w).
  { unfold openai_key. subst w0. by rewrite connected_secrets, connected_session. }
  rewrite Hkey. destruct (truthy (openai_key w)); [|done].
  fold w1. destruct (outage_next w0); [done|].
  destruct (embedding_provider _ _ _) as [|v l]; [done|].
  unfold bind at 1. rewrite search_spec. unfold found.
  destruct (outage_next w1); [done|].
  destruct (qdrant w1 !! _) as [col|]; [|done].
  destruct (Qdrant.fits _ _); [|done].
  rewrite (for_each_pure _ ranked_note).
  - unfold top_hits. by destruct (mapM ranked_note _).
  - intros x w2. unfold payload_text, ranked_note. script.
    by destruct (sp_payload x !! "text").
Qed.


(** The order of the results: the score of the earlier one is not below
    the score of the later one. *)
Definition score_value (r : NoteResult) : Q := default 0%Q (nr_score r).
Definition ranked_ge (a b : NoteResult) : Prop := (score_value b <= score_value a)%Q.

(** A result carries the text and the similarity score of a hit. *)
Definition carries (hit : ScoredPoint) (r : NoteResult) : Prop :=
  sp_payload hit !! "text" = Some (nr_text r) ∧ nr_score r = Some (sp_score hit).

#[local] Instance score_ge_trans : Transitive Qdrant.score_ge.
Proof. intros a b c Hab Hbc. unfold Qdrant.score_ge in *. by eapply Qle_trans. Qed.

#[local] Instance score_ge_total : Total Qdrant.score_ge.
Proof.
  intros a b. unfold Qdrant.score_ge.
  destruct (Qlt_le_dec (sp_score a) (sp_score b)) as [Hlt|Hle]; [right|left]; [|done].
  by apply Qlt_le_weak.
Qed.

Lemma top_hits_sorted col v : StronglySorted Qdrant.score_ge (top_hits col v).
Proof.
  unfold top_hits.
  set (l := merge_sort _ _).
  assert (Hl : StronglySorted Qdrant.score_ge l)
    by (apply StronglySorted_merge_sort; apply _).
  rewrite <-(take_drop 10 l) in Hl. by apply StronglySorted_app_1_l in Hl.
Qed.

Lemma top_hits_length col v : (length (top_hits col v) ≤ 10)%nat.
Proof. unfold top_hits. rewrite length_take. lia. Qed.

Lemma carries_all (hs : list ScoredPoint) rs :
  mapM ranked_note hs = Some rs → Forall2 carries hs rs.
Proof.
  intros H%mapM_Some_1. eapply Forall2_impl; [done|].
  intros hit r. unfold ranked_note, carries.
  destruct (sp_payload hit !! "text"); intros; by simplify_eq/=.
Qed.

Lemma carries_bound hit hs r rs :
  carries hit r → Forall (Qdrant.score_ge hit) hs → Forall2 carries hs rs →
  Forall (ranked_ge r) rs.
Proof.
  intros [_ Hr] Hall H2. induction H2 as [|h r' hs rs [_ Hr'] _ IH]; [done|].
  apply Forall_cons_1 in Hall as [Hh Hall]. constructor; [|by apply IH].
  unfold ranked_ge, score_value. by rewrite Hr, Hr'.
Qed.

Lemma carries_sorted hs rs :
  Forall2 carries hs rs → StronglySorted Qdrant.score_ge hs → StronglySorted ranked_ge rs.
Proof.
  induction 1 as [|h r hs rs Hc H2 IH]; [constructor|].
  intros [Hall Hs]%StronglySorted_cons. constructor; [by apply IH|].
  by eapply carries_bound.
Qed.

Lemma carries_scored hs rs :
  Forall2 carries hs rs → Forall (λ r, is_Some (nr_score r)) rs.
Proof.
  induction 1 as [|h r hs rs [_ Hr] _ IH]; constructor; [|done]. by rewrite Hr.
Qed.

(** What [found] holds: nothing, or the top hits of the collection. *)
Lemma found_hits v w :
  found v w = []
  ∨ ∃ col, qdrant w !! QDRANT_COLLECTION_NAME = Some col
           ∧ Forall2 carries (top_hits col v) (found v w).
Proof.
  unfold found. destruct (outage_next w); [by left|].
  destruct (qdrant w !! _) as [col|]; [|by left].
  destruct (Qdrant.fits _ _); [|by left].
  destruct (mapM ranked_note (top_hits col v)) as [rs|] eqn:Hrs; [|by left].
  right. exists col. split; [done|]. by apply carries_all.
Qed.


(** *** Adding a note *)

(** The exact point count of the collection, as [count] reports it. *)
Definition point_count (w : World) : Z :=
  match qdrant w !! QDRANT_COLLECTION_NAME with
  | Some col => Z.of_nat (size (col_points col))
  | None => 0
  end.

(** The point [add_note_to_db] builds for a text. *)
Definition note_point (text : string) (w : World) : PointStruct :=
  mkPointStruct (point_count w + 1) (embedding_of text) {["text" := text]}.

(** The requests of a complete [add_note_to_db]. *)
Definition add_sequence (text : string) (w : World) : list Request :=
  [ReqCount QDRANT_COLLECTION_NAME;
   ReqEmbeddings [text] EMBEDDING_MODEL EMBEDDING_DIM;
   ReqUpsert QDRANT_COLLECTION_NAME [note_point text w]].

(** The store after the point was upserted. *)
Definition with_note (text : string) (w : World) : gmap string Collection :=
  match qdrant w !! QDRANT_COLLECTION_NAME with
  | Some col =>
      <[QDRANT_COLLECTION_NAME :=
          mkCollection (col_config col)
            (<[point_count w + 1 := mkPoint (embedding_of text) {["text" := text]}]>
               (col_points col))]> (qdrant w)
  | None => qdrant w
  end.

Lemma count_spec c name exact w :
  Qdrant.count_points c name exact w =
    (if outage_next w then Raise ConnectionFailed
     else match qdrant w !! name with
          | Some col => Ret (Qdrant.mkCountResult (Z.of_nat (size (col_points col))))
          | None => Raise NotFound
          end,
     sent (ReqCount name) w).
Proof.
  unfold Qdrant.count_points, Qdrant.lookup_collection. unfold bind at 1.
  rewrite send_spec. destruct (outage_next w); [done|].
  script. cbn. by destruct (qdrant w !! name).
Qed.

Lemma upsert_spec c name p w :
  Qdrant.upsert c name [p] w =
    let w' := sent (ReqUpsert name [p]) w in
    if outage_next w then (Raise ConnectionFailed, w')
    else match qdrant w !! name with
         | Some col =>
             if Qdrant.fits (col_config col) (ps_vector p)
             then (Ret tt,
                   set_qdrant (insert name
                     (mkCollection (col_config col)
                        (<[ps_id p := mkPoint (ps_vector p) (ps_payload p)]>
                           (col_points col)))) w')
             else (Raise BadRequest, w')
         | None => (Raise NotFound, w')
         end.
Proof.
  unfold Qdrant.upsert, Qdrant.lookup_collection. unfold bind at 1.
  rewrite send_spec. destruct (outage_next w); [done|].
  script. cbn. destruct (qdrant w !! name) as [col|]; [|done].
  rewrite andb_true_r. by destruct (Qdrant.fits _ _).
Qed.

(** [add_note_to_db], case by case. *)
Lemma add_note_spec text w :
  let w0 := connected (add_log (EvInvoke OpAddNote) w) in
  let w1 := sent (ReqCount QDRANT_COLLECTION_NAME) w0 in
  let w2 := sent (ReqEmbeddings [text] EMBEDDING_MODEL EMBEDDING_DIM) w1 in
  let w3 := sent (ReqUpsert QDRANT_COLLECTION_NAME [note_point text w]) w2 in
  add_note text w =
    match client_of w with
    | None => (Ret false, w0)
    | Some _ =>
        if outage_next w0 then (Ret false, w1)
        else match qdrant w !! QDRANT_COLLECTION_NAME with
             | None => (Ret false, w1)
             | Some col =>
                 if truthy (openai_key w)
                 then if outage_next w1 then (Ret false, w2)
                      else match embedding_provider [text] EMBEDDING_MODEL EMBEDDING_DIM with
                           | [] => (Ret false, w2)
                           | v :: _ =>
                               if outage_next w2 then (Ret false, w3)
                               else if Qdrant.fits (col_config col) v
                                    then (Ret true, set_qdrant (λ _, with_note text w) w3)
                                    else (Ret false, w3)
                           end
                 else (Halt CtlStop, w1)
             end
    end.
Proof.
  intros w0 w1 w2 w3.
  unfold add_note_to_db, add_note_body.
  unfold bind at 1. unfold modify at 1. unfold try_except.
  unfold bind at 1. rewrite get_qdrant_client_spec. fold w0.
  change (client_of (add_log (EvInvoke OpAddNote) w)) with (client_of w).
  destruct (client_of w) as [c|]; [|done].
  unfold bind at 1. rewrite count_spec. fold w1.
  destruct (outage_next w0); [done|].
  assert (Hq0 : qdrant w0 = qdrant w) by (subst w0; by rewrite connected_qdrant).
  rewrite Hq0.
  destruct (qdrant w !! QDRANT_COLLECTION_NAME) as [col|] eqn:Hcol; [|done].
  unfold bind at 1. rewrite get_embedding_spec.
  assert (Hkey : openai_key w1 = openai_key w).
  { unfold openai_key. subst w1 w0. cbn. by rewrite connected_secrets, connected_session. }
  rewrite Hkey. destruct (truthy (openai_key w)); [|done].
  fold w2. destruct (outage_next w1); [done|].
  destruct (embedding_provider _ _ _) as [|v l] eqn:Hv; [done|].
  assert (Hp : mkPointStruct (Qdrant.count (Qdrant.mkCountResult (Z.of_nat (size (col_points col)))) + 1)
                 v {["text" := text]} = note_point text w).
  { unfold note_point, point_count, embedding_of. by rewrite Hcol, Hv. }
  rewrite Hp. unfold bind at 1. rewrite upsert_spec. cbv zeta. fold w3.
  destruct (outage_next w2); [done|].
  change (qdrant w2) with (qdrant w0). rewrite Hq0, Hcol.
  assert (Hpv : ps_vector (note_point text w) = v).
  { unfold note_point, embedding_of. by rewrite Hv. }
  rewrite Hpv. destruct (Qdrant.fits _ _); [|done].
  unfold ret. f_equal. unfold set_qdrant. f_equal.
  change (qdrant w3) with (qdrant w0). rewrite Hq0.
  unfold with_note. rewrite Hcol. cbn. unfold embedding_of. by rewrite Hv.
Qed.


(** The next [n] requests are answered. *)
Definition answered (n : nat) (w : World) : Prop := true ∉ take n (outages w).

Lemma answered_S n r w :
  answered (S n) w ↔ outage_next w = false ∧ answered n (sent r w).
Proof.
  unfold answered, outage_next, sent. cbn.
  destruct (outages w) as [|[] o]; cbn.
  - rewrite take_nil. split; [done|]. intros _ H. by apply elem_of_nil in H.
  - split; [|by intros [? _]]. intros H. destruct H. by left.
  - rewrite elem_of_cons. split.
    + intros H. split; [done|]. intros Hin. apply H. by right.
    + intros [_ H] [Heq|Hin]; [done|by apply H].
Qed.

Lemma answered_0 w : answered 0 w.
Proof. unfold answered. rewrite take_0. set_solver. Qed.

(** Everything [add_note_to_db] needs goes well: there is a store client,
    the three requests are answered, an OpenAI key is configured, the
    provider's answer holds a vector, and the collection exists and
    accepts that vector. *)
Definition add_succeeds (text : string) (w : World) : Prop :=
  is_Some (client_of w)
  ∧ answered 3 (connected w)
  ∧ truthy (openai_key w) = true
  ∧ embedding_provider [text] EMBEDDING_MODEL EMBEDDING_DIM ≠ []
  ∧ ∃ col, qdrant w !! QDRANT_COLLECTION_NAME = Some col
           ∧ Qdrant.fits (col_config col) (embedding_of text) = true.

Lemma connected_add_log_outages e w :
  outages (connected (add_log e w)) = outages (connected w).
Proof. unfold connected. cbn. by destruct (client_cache w). Qed.

Lemma answered_ext n w w' : outages w = outages w' → answered n w → answered n w'.
Proof. unfold answered. by intros ->. Qed.

Lemma outage_next_ext w w' : outages w = outages w' → outage_next w = outage_next w'.
Proof. unfold outage_next. by intros ->. Qed.

(** The three requests of [add_note_to_db] are the three that follow the
    connection check. *)
Lemma answered_three text w :
  let w0 := connected (add_log (EvInvoke OpAddNote) w) in
  let w1 := sent (ReqCount QDRANT_COLLECTION_NAME) w0 in
  let w2 := sent (ReqEmbeddings [text] EMBEDDING_MODEL EMBEDDING_DIM) w1 in
  answered 3 (connected w)
  ↔ outage_next w0 = false ∧ outage_next w1 = false ∧ outage_next w2 = false.
Proof.
  intros w0 w1 w2.
  rewrite (answered_S 2 (ReqCount QDRANT_COLLECTION_NAME)),
    (answered_S 1 (ReqEmbeddings [text] EMBEDDING_MODEL EMBEDDING_DIM)),
    (answered_S 0 (ReqUpsert QDRANT_COLLECTION_NAME [note_point text w])).
  assert (H0 : outages w0 = outages (connected w))
    by apply connected_add_log_outages.
  rewrite (outage_next_ext w0 (connected w) H0).
  assert (H1 : outages w1 = outages (sent (ReqCount QDRANT_COLLECTION_NAME) (connected w))).
  { subst w1. by rewrite !sent_outages, H0. }
  rewrite (outage_next_ext w1 _ H1).
  assert (H2 : outages w2 = outages (sent (ReqEmbeddings [text] EMBEDDING_MODEL EMBEDDING_DIM)
                                       (sent (ReqCount QDRANT_COLLECTION_NAME) (connected w)))).
  { subst w2. by rewrite !(sent_outages (ReqEmbeddings _ _ _)), H1. }
  rewrite (outage_next_ext w2 _ H2).
  pose proof (answered_0 (sent (ReqUpsert QDRANT_COLLECTION_NAME [note_point text w])
                 (sent (ReqEmbeddings [text] EMBEDDING_MODEL EMBEDDING_DIM)
                    (sent (ReqCount QDRANT_COLLECTION_NAME) (connected w))))).
  tauto.
Qed.


(** *** What a search returns *)

(** The two requests of a search are the two that follow the connection
    check. *)
Lemma answered_two q w :
  let w0 := connected (add_log (EvInvoke OpListNotes) w) in
  let w1 := sent (ReqEmbeddings [q] EMBEDDING_MODEL EMBEDDING_DIM) w0 in
  (answered 1 (connected w) ↔ outage_next w0 = false)
  ∧ (answered 2 (connected w) ↔ outage_next w0 = false ∧ outage_next w1 = false).
Proof.
  intros w0 w1.
  assert (H0 : outages w0 = outages (connected w))
    by apply connected_add_log_outages.
  assert (H1 : outages w1
               = outages (sent (ReqEmbeddings [q] EMBEDDING_MODEL EMBEDDING_DIM) (connected w))).
  { subst w1. by rewrite !sent_outages, H0. }
  rewrite (outage_next_ext w0 (connected w) H0), (outage_next_ext w1 _ H1).
  rewrite (answered_S 0 (ReqEmbeddings [q] EMBEDDING_MODEL EMBEDDING_DIM)),
    (answered_S 1 (ReqEmbeddings [q] EMBEDDING_MODEL EMBEDDING_DIM)),
    (answered_S 0 (ReqSearch QDRANT_COLLECTION_NAME (embedding_of q) 10)).
  pose proof (answered_0 (sent (ReqEmbeddings [q] EMBEDDING_MODEL EMBEDDING_DIM) (connected w))).
  pose proof (answered_0 (sent (ReqSearch QDRANT_COLLECTION_NAME (embedding_of q) 10)
                 (sent (ReqEmbeddings [q] EMBEDDING_MODEL EMBEDDING_DIM) (connected w)))).
  tauto.
Qed.

(** The query is embedded: there is a store client, the embeddings
    request is answered and the answer holds a vector. *)
Definition query_embedded (q : string) (w : World) : Prop :=
  is_Some (client_of w)
  ∧ answered 1 (connected w)
  ∧ embedding_provider [q] EMBEDDING_MODEL EMBEDDING_DIM ≠ [].

(** The search goes through: the query is embedded, the search request is
    answered too, the collection exists and takes the embedded vector, and
    every top hit has a text. *)
Definition search_succeeds (q : string) (w : World) : Prop :=
  is_Some (client_of w)
  ∧ answered 2 (connected w)
  ∧ embedding_provider [q] EMBEDDING_MODEL EMBEDDING_DIM ≠ []
  ∧ ∃ col, qdrant w !! QDRANT_COLLECTION_NAME = Some col
           ∧ Qdrant.fits (col_config col) (embedding_of q) = true
           ∧ Forall (λ h, is_Some (sp_payload h !! "text")) (top_hits col (embedding_of q)).

(** Results that carry the hits are the hits, one by one. *)
Lemma carries_exact hs rs : Forall2 carries hs rs ↔ mapM ranked_note hs = Some rs.
Proof.
  split; [|apply carries_all].
  intros H. apply mapM_Some_2. eapply Forall2_impl; [done|].
  intros h [t s] [Ht Hs]. cbn in *. unfold ranked_note. rewrite Ht, Hs. done.
Qed.

Lemma hits_texted hs :
  Forall (λ h, is_Some (sp_payload h !! "text")) hs ↔ is_Some (mapM ranked_note hs).
Proof.
  rewrite mapM_is_Some. apply Forall_proper; [|done]. intros h. cbn.
  unfold ranked_note. destruct (sp_payload h !! "text"); cbn; split; eauto.
  all: by intros [? ?].
Qed.

(** What [found] holds, exactly. *)
Lemma found_exact v w :
  (outage_next w = false
   ∧ ∃ col, qdrant w !! QDRANT_COLLECTION_NAME = Some col
            ∧ Qdrant.fits (col_config col) v = true
            ∧ Forall (λ h, is_Some (sp_payload h !! "text")) (top_hits col v)
            ∧ Forall2 carries (top_hits col v) (found v w))
  ∨ (found v w = []
     ∧ ¬ (outage_next w = false
          ∧ ∃ col, qdrant w !! QDRANT_COLLECTION_NAME = Some col
                   ∧ Qdrant.fits (col_config col) v = true
                   ∧ Forall (λ h, is_Some (sp_payload h !! "text")) (top_hits col v))).
Proof.
  unfold found. destruct (outage_next w) eqn:Hout.
  { right. split; [done|]. by intros [? _]. }
  destruct (qdrant w !! QDRANT_COLLECTION_NAME) as [col|] eqn:Hcol.
  2:{ right. split; [done|]. by intros (_ & col & ? & _). }
  destruct (Qdrant.fits (col_config col) v) eqn:Hfit.
  2:{ right. split; [done|]. intros (_ & col' & [= <-] & ? & _). congruence. }
  destruct (mapM ranked_note (top_hits col v)) as [rs|] eqn:Hrs.
  - left. split; [done|]. exists col. split_and!; [done|done| |by apply carries_all].
    apply hits_texted. by rewrite Hrs.
  - right. split; [done|]. intros (_ & col' & [= <-] & _ & Hall).
    apply hits_texted in Hall as [rs Hrs']. congruence.
Qed.

(** C5: for a non-empty query [q], [list_notes_from_db q] returns at most
    10 results, each with a score, in non-increasing order of score.  After
    the connection check it asks for the embedding of [q] exactly when
    there is a store client, and then for a search of limit 10 with the
    embedded vector exactly when the embedding was answered with a vector.
    When the search goes through, the results are the store's top hits,
    one result per hit in the store's order, each with the text and the
    similarity score of its hit; in every other case the result is empty.
    The one other outcome is the script stop of [get_openai_client], before
    any request, when there is a store client and no OpenAI key. *)
Theorem list_notes_with_query q w :
  q ≠ "" →
  let v := embedding_of q in
  let embedding := ReqEmbeddings [q] EMBEDDING_MODEL EMBEDDING_DIM in
  let asked := [embedding; ReqSearch QDRANT_COLLECTION_NAME v 10] in
  (∃ rs w' new,
      list_notes (Some q) w = (Ret rs, w')
      ∧ (truthy (openai_key w) = true ∨ client_of w = None)
      ∧ (length rs ≤ 10)%nat
      ∧ Forall (λ r, is_Some (nr_score r)) rs
      ∧ StronglySorted ranked_ge rs
      ∧ requests (log w') = requests (log w) ++ connect_requests w ++ new
      ∧ new `prefix_of` asked
      ∧ (embedding ∈ new ↔ is_Some (client_of w))
      ∧ (new = asked ↔ query_embedded q w)
      ∧ (search_succeeds q w →
           new = asked
           ∧ ∃ col, qdrant w !! QDRANT_COLLECTION_NAME = Some col
                    ∧ Forall2 carries (top_hits col v) rs
                    ∧ mapM ranked_note (top_hits col v) = Some rs
                    ∧ length rs = length (top_hits col v))
      ∧ (¬ search_succeeds q w → rs = [])
      ∧ (rs = []
         ∨ ∃ col, qdrant w !! QDRANT_COLLECTION_NAME = Some col
                  ∧ new = asked
                  ∧ Forall2 carries (top_hits col v) rs))
  ∨ (truthy (openai_key w) = false
     ∧ is_Some (client_of w)
     ∧ (list_notes (Some q) w).1 = Halt CtlStop
     ∧ requests (log (list_notes (Some q) w).2) = requests (log w) ++ connect_requests w).
Proof.
  intros Hq v embedding asked. rewrite (list_notes_ranked q w Hq).
  destruct (answered_two q w) as [Hans1 Hans2]. cbv zeta in Hans1, Hans2.
  set (w0 := connected (add_log (EvInvoke OpListNotes) w)) in *.
  set (w1 := sent (ReqEmbeddings [q] EMBEDDING_MODEL EMBEDDING_DIM) w0) in *.
  assert (Hreq0 : requests (log w0) = requests (log w) ++ connect_requests w).
  { subst w0. rewrite connected_requests. cbn. by rewrite requests_app, app_nil_r. }
  assert (Hreq1 : requests (log w1)
                  = requests (log w) ++ connect_requests w ++ [embedding]).
  { subst w1. by rewrite sent_requests, Hreq0, <-app_assoc. }
  assert (Hne : [embedding] ≠ asked) by done.
  unfold query_embedded, search_succeeds.
  destruct (client_of w) as [c|] eqn:Hc.
  2:{ left. exists [], w0, []. rewrite app_nil_r.
      split_and!; auto; try done.
      - cbn; lia.
      - constructor.
      - apply prefix_nil.
      - split; [by intros ?%elem_of_nil|by intros [? ?]].
      - split; [done|]. by intros [[? ?] _].
      - by intros [[? ?] _]. }
  destruct (truthy (openai_key w)) eqn:Hkey.
  2:{ right. split_and!; eauto. }
  left. destruct (outage_next w0) eqn:Ho0.
  { exists [], w1, [embedding]. split_and!; auto; try done.
    - cbn; lia.
    - constructor.
    - by exists [ReqSearch QDRANT_COLLECTION_NAME v 10].
    - split; [by eauto|]. intros _. by left.
    - split; [done|]. intros (_ & H & _). apply Hans1 in H. done.
    - intros (_ & H & _). apply Hans2 in H as [? _]. done. }
  destruct (embedding_provider [q] EMBEDDING_MODEL EMBEDDING_DIM) as [|d l] eqn:Hd.
  { exists [], w1, [embedding]. split_and!; auto; try done.
    - cbn; lia.
    - constructor.
    - by exists [ReqSearch QDRANT_COLLECTION_NAME v 10].
    - split; [by eauto|]. intros _. by left.
    - split; [done|]. by intros (_ & _ & ?).
    - by intros (_ & _ & ? & _). }
  assert (Hv : v = d) by (subst v; unfold embedding_of; by rewrite Hd).
  subst d.
  exists (found v w1), (sent (ReqSearch QDRANT_COLLECTION_NAME v 10) w1), asked.
  assert (Hreq2 : requests (log (sent (ReqSearch QDRANT_COLLECTION_NAME v 10) w1))
                  = requests (log w) ++ connect_requests w ++ asked).
  { rewrite sent_requests, Hreq1. by rewrite <-!app_assoc. }
  assert (Hqw : qdrant w1 = qdrant w).
  { subst w1 w0. by rewrite sent_qdrant, connected_qdrant. }
  assert (Hemb : embedding ∈ asked ↔ is_Some (Some c)).
  { split; [by eauto|]. intros _. by left. }
  assert (Hasked : asked = asked
                   ↔ is_Some (Some c) ∧ answered 1 (connected w) ∧ v :: l ≠ []).
  { split; [|done]. intros _. split_and!; [by eauto|by apply Hans1|done]. }
  destruct (found_exact v w1) as [(Ho1 & col & Hcol & Hfit & Htext & Hcar)|[Hnil Hnot]].
  - rewrite Hqw in Hcol.
    split_and!; [done|by left| | | |done|done|done|done| | |].
    + apply Forall2_length in Hcar. rewrite <-Hcar. apply top_hits_length.
    + by eapply carries_scored.
    + eapply carries_sorted; [done|]. apply top_hits_sorted.
    + intros _. split; [done|]. exists col. split_and!; [done|done|by apply carries_exact|].
      symmetry. by eapply Forall2_length.
    + intros Hno. destruct Hno. split_and!; [by eauto|by apply Hans2|done|].
      by exists col.
    + right. by exists col.
  - rewrite Hnil.
    split_and!; [done|by left| | | |done|done|done|done| |done|by left].
    + cbn; lia.
    + constructor.
    + constructor.
    + intros (_ & Hans & _ & col & Hcol & Hfit & Htext). destruct Hnot.
      apply Hans2 in Hans as [_ Ho1]. split; [done|]. exists col.
      by rewrite Hqw.
Qed.


Ltac add_fails Hans :=
  unfold add_succeeds;
  let H := fresh in
  intros (_ & H & ? & ? & ? & ? & ?);
  apply Hans in H as (? & ? & ?);
  congruence.

(** C1: [add_note_to_db text], after the connection check, sends the
    requests of the sequence "count the points exactly, embed [text],
    upsert one point with id count + 1, the embedded vector and the
    payload {text}", in this order, stopping at the first step that add_fails Hans.
    It returns [True] exactly when every step went well; it has then sent
    the whole sequence and the store holds the new point. *)
Theorem add_note_sequence text w :
  ∃ o w' new,
    add_note text w = (o, w')
    ∧ requests (log w') = requests (log w) ++ connect_requests w ++ new
    ∧ new `prefix_of` add_sequence text w
    ∧ (o = Ret true ↔ add_succeeds text w)
    ∧ (o = Ret true → new = add_sequence text w ∧ qdrant w' = with_note text w).
Proof.
  rewrite add_note_spec.
  set (wi := add_log (EvInvoke OpAddNote) w).
  set (w0 := connected wi).
  set (w1 := sent (ReqCount QDRANT_COLLECTION_NAME) w0).
  set (w2 := sent (ReqEmbeddings [text] EMBEDDING_MODEL EMBEDDING_DIM) w1).
  set (w3 := sent (ReqUpsert QDRANT_COLLECTION_NAME [note_point text w]) w2).
  assert (Hreq0 : requests (log w0) = requests (log w) ++ connect_requests w ++ []).
  { subst w0 wi. rewrite connected_requests. cbn. by rewrite requests_app, !app_nil_r. }
  assert (Hreq1 : requests (log w1)
                  = requests (log w) ++ connect_requests w ++ take 1 (add_sequence text w)).
  { subst w1. rewrite sent_requests, Hreq0. cbn. by rewrite app_nil_r, <-app_assoc. }
  assert (Hreq2 : requests (log w2)
                  = requests (log w) ++ connect_requests w ++ take 2 (add_sequence text w)).
  { subst w2. rewrite sent_requests, Hreq1. cbn. by rewrite <-!app_assoc. }
  assert (Hreq3 : requests (log w3)
                  = requests (log w) ++ connect_requests w ++ add_sequence text w).
  { subst w3. rewrite sent_requests, Hreq2. cbn. by rewrite <-!app_assoc. }
  assert (Hpre : ∀ n, take n (add_sequence text w) `prefix_of` add_sequence text w).
  { intros n. apply prefix_take. }
  pose proof (answered_three text w) as Hans. cbv zeta in Hans.
  fold wi w0 w1 w2 in Hans.
  destruct (client_of w) as [c|] eqn:Hc.
  2:{ eexists _, _, []. split_and!; [done|done|apply prefix_nil|..|done].
      split; [done|]. unfold add_succeeds. intros [[? ?] _]. congruence. }
  destruct (outage_next w0) eqn:Ho0.
  { eexists _, _, _. split_and!; [done|exact Hreq1|apply Hpre|..|done].
    split; [done|]. add_fails Hans. }
  destruct (qdrant w !! QDRANT_COLLECTION_NAME) as [col|] eqn:Hcol.
  2:{ eexists _, _, _. split_and!; [done|exact Hreq1|apply Hpre|..|done].
      split; [done|]. add_fails Hans. }
  destruct (truthy (openai_key w)) eqn:Hkey.
  2:{ eexists _, _, _. split_and!; [done|exact Hreq1|apply Hpre|..|done].
      split; [done|]. add_fails Hans. }
  destruct (outage_next w1) eqn:Ho1.
  { eexists _, _, _. split_and!; [done|exact Hreq2|apply Hpre|..|done].
    split; [done|]. add_fails Hans. }
  destruct (embedding_provider [text] EMBEDDING_MODEL EMBEDDING_DIM) as [|v l] eqn:Hv.
  { eexists _, _, _. split_and!; [done|exact Hreq2|apply Hpre|..|done].
    split; [done|]. add_fails Hans. }
  assert (Hemb : embedding_of text = v) by (unfold embedding_of; by rewrite Hv).
  destruct (outage_next w2) eqn:Ho2.
  { eexists _, _, _. split_and!; [done|exact Hreq3|done|..|done].
    split; [done|]. add_fails Hans. }
  destruct (Qdrant.fits (col_config col) v) eqn:Hfit.
  - eexists _, _, _. split_and!; [done|exact Hreq3|done|..|done].
    split; [|done]. intros _. unfold add_succeeds. rewrite Hans.
    split_and!; eauto; [congruence|]. exists col. by rewrite Hemb.
  - eexists _, _, _. split_and!; [done|exact Hreq3|done|..|done].
    split; [done|]. add_fails Hans.
Qed.


(** *** What a call of [add_note_to_db] leaves behind *)

(** The cases of [add_note_spec]; [fin] is run on every leaf. *)
Ltac add_note_cases text w fin :=
  rewrite (add_note_spec text w); cbv zeta;
  destruct (client_of w) eqn:Hclient;
  [ destruct (outage_next (connected (add_log (EvInvoke OpAddNote) w))) eqn:Hout0;
    [ fin
    | destruct (qdrant w !! QDRANT_COLLECTION_NAME) as [col|] eqn:Hcol;
      [ destruct (truthy (openai_key w)) eqn:Hkey;
        [ destruct (outage_next (sent (ReqCount _) _)) eqn:Hout1;
          [ fin
          | destruct (embedding_provider [text] EMBEDDING_MODEL EMBEDDING_DIM)
              as [|v l] eqn:Hprov;
            [ fin
            | destruct (outage_next (sent (ReqEmbeddings _ _ _) _)) eqn:Hout2;
              [ fin
              | destruct (Qdrant.fits _ _) eqn:Hfit; fin ] ] ]
        | fin ]
      | fin ] ]
  | fin ].

Lemma add_note_outcome text w :
  (add_note text w).1 = Ret true
  ∨ (add_note text w).1 = Ret false
  ∨ (add_note text w).1 = Halt CtlStop ∧ truthy (openai_key w) = false.
Proof. add_note_cases text w ltac:(auto). Qed.

Lemma add_note_true_store text w :
  (add_note text w).1 = Ret true → qdrant (add_note text w).2 = with_note text w.
Proof. add_note_cases text w ltac:(done). Qed.

Lemma add_note_else_store text w :
  (add_note text w).1 ≠ Ret true → qdrant (add_note text w).2 = qdrant w.
Proof.
  add_note_cases text w
    ltac:(try done; intros _; cbn [snd]; rewrite ?sent_qdrant; by rewrite connected_qdrant).
Qed.

Lemma add_note_true_iff text w :
  (add_note text w).1 = Ret true ↔ add_succeeds text w.
Proof.
  pose proof (answered_three text w) as Hans. cbv zeta in Hans.
  unfold add_succeeds. rewrite Hans. clear Hans.
  add_note_cases text w
    ltac:(cbn [fst];
          split; [try done|try (intros ([? ?] & (? & ? & ?) & ? & ? & ? & ? & ?); congruence)]).
  - intros _. assert (Hemb : embedding_of text = v) by (unfold embedding_of; by rewrite Hprov).
    split_and!; eauto. exists col. by rewrite Hemb.
  - intros ([? ?] & (? & ? & ?) & ? & ? & col' & ? & Hfit').
    assert (Hemb : embedding_of text = v) by (unfold embedding_of; by rewrite Hprov).
    rewrite Hemb in Hfit'. congruence.
Qed.


(** *** The ids of the stored notes *)

(** The ids are 1, 2, ..., count: what a collection looks like that the
    bootstrap created and that only [add_note_to_db] has written to. *)
Definition ids_sequential (pts : gmap Z Point) : Prop :=
  ∀ i, is_Some (pts !! i) ↔ 1 ≤ i ≤ Z.of_nat (size pts).

Lemma ids_sequential_empty : ids_sequential ∅.
Proof.
  intros i. split.
  - intros [p Hp]. by rewrite lookup_empty in Hp.
  - change (size (∅ : gmap Z Point)) with 0%nat. lia.
Qed.

Lemma ids_sequential_fresh pts :
  ids_sequential pts → pts !! (Z.of_nat (size pts) + 1) = None.
Proof.
  intros Hseq. apply eq_None_not_Some. intros H%Hseq. lia.
Qed.

Lemma ids_sequential_insert pts p :
  ids_sequential pts → ids_sequential (<[Z.of_nat (size pts) + 1 := p]> pts).
Proof.
  intros Hseq i.
  rewrite map_size_insert_None by by apply ids_sequential_fresh.
  destruct (decide (i = Z.of_nat (size pts) + 1)) as [->|Hne].
  - rewrite lookup_insert_eq. split; [lia|by eauto].
  - rewrite lookup_insert_ne by done. rewrite (Hseq i). lia.
Qed.


(** C7, as amended: in a collection whose ids are exactly 1..count, a
    successful [add_note_to_db] stores the note under the id count + 1,
    which no point had, so the exact count grows by exactly 1; the ids
    are then again 1..count. *)
Theorem add_note_adds_one text w w' col :
  qdrant w !! QDRANT_COLLECTION_NAME = Some col →
  ids_sequential (col_points col) →
  add_note text w = (Ret true, w') →
  ∃ col',
    qdrant w' !! QDRANT_COLLECTION_NAME = Some col'
    ∧ col_points col !! (point_count w + 1) = None
    ∧ col_points col' = <[point_count w + 1 := mkPoint (embedding_of text) {["text" := text]}]>
                          (col_points col)
    ∧ point_count w' = point_count w + 1
    ∧ ids_sequential (col_points col').
Proof.
  intros Hcol Hseq Hrun.
  assert (Hstore : qdrant w' = with_note text w).
  { pose proof (add_note_true_store text w) as H. rewrite Hrun in H. by apply H. }
  assert (Hn : point_count w = Z.of_nat (size (col_points col))).
  { unfold point_count. by rewrite Hcol. }
  unfold with_note in Hstore. rewrite Hcol in Hstore.
  eexists. split; [by rewrite Hstore, lookup_insert_eq|]. cbn [col_points].
  split_and!.
  - rewrite Hn. by apply ids_sequential_fresh.
  - done.
  - unfold point_count at 1. rewrite Hstore, lookup_insert_eq. cbn [col_points].
    rewrite Hn, map_size_insert_None by by apply ids_sequential_fresh. lia.
  - rewrite Hn. by apply ids_sequential_insert.
Qed.


(** Whatever a call of [add_note_to_db] ends with, ids that were 1..count
    are so afterwards: the bootstrap's empty collection starts that way
    and the script's only writer keeps it. *)
Lemma add_note_keeps_ids text w col :
  qdrant w !! QDRANT_COLLECTION_NAME = Some col →
  ids_sequential (col_points col) →
  ∃ col', qdrant (add_note text w).2 !! QDRANT_COLLECTION_NAME = Some col'
          ∧ ids_sequential (col_points col').
Proof.
  intros Hcol Hseq.
  destruct (add_note_outcome text w) as [Hok|Hno].
  - rewrite (add_note_true_store text w Hok). unfold with_note, point_count.
    rewrite Hcol, lookup_insert_eq. eexists. split; [done|].
    by apply ids_sequential_insert.
  - rewrite add_note_else_store; [by exists col|].
    destruct Hno as [Hno|[Hno _]]; by rewrite Hno.
Qed.


(** *** Failures inside the repository operations *)

Lemma try_except_no_raise {A} (m : M A) (a : A) w e :
  (try_except m (λ _, ret a) w).1 ≠ Raise e.
Proof. unfold try_except, ret. by destruct (m w) as [[?|?|?] ?]. Qed.

Lemma try_except_caught {A} (m : M A) (a : A) w e :
  (m w).1 = Raise e → (try_except m (λ _, ret a) w).1 = Ret a.
Proof. unfold try_except, ret. destruct (m w) as [[?|?|?] ?]; by intros [=]. Qed.

Lemma add_note_unfold text w :
  add_note text w
  = try_except (add_note_body embedding_provider text) (λ _, ret false)
      (add_log (EvInvoke OpAddNote) w).
Proof. done. Qed.

Lemma list_notes_unfold query w :
  list_notes query w
  = try_except (list_notes_body embedding_provider similarity query) (λ _, ret [])
      (add_log (EvInvoke OpListNotes) w).
Proof. done. Qed.

Lemma no_query_false query : no_query query = false → ∃ q, query = Some q ∧ q ≠ "".
Proof.
  destruct query as [q|]; [|done]. cbn. unfold str_truthy.
  rewrite negb_involutive. intros H%String.eqb_neq. by exists q.
Qed.

Lemma list_notes_outcome query w :
  (∃ rs, (list_notes query w).1 = Ret rs)
  ∨ (list_notes query w).1 = Halt CtlStop ∧ truthy (openai_key w) = false.
Proof.
  destruct (no_query query) eqn:Hq.
  - destruct (list_notes_unranked query w Hq) as (w' & Hrun & _). rewrite Hrun. eauto.
  - apply no_query_false in Hq as (q & -> & Hq). rewrite (list_notes_ranked q w Hq).
    cbv zeta. destruct (client_of w); [|by eauto].
    destruct (truthy (openai_key w)); [|by right].
    destruct (outage_next _); [by eauto|].
    destruct (embedding_provider _ _ _); by eauto.
Qed.

Lemma list_notes_no_client query w :
  client_of w = None → (list_notes query w).1 = Ret [].
Proof.
  intros Hc. destruct (no_query query) eqn:Hq.
  - destruct (list_notes_unranked query w Hq) as (w' & Hrun & _). rewrite Hrun.
    unfold listed. by rewrite Hc.
  - apply no_query_false in Hq as (q & -> & Hq). rewrite (list_notes_ranked q w Hq).
    cbv zeta. by rewrite Hc.
Qed.

Lemma list_notes_first_outage query w :
  truthy (openai_key w) = true → outage_next (connected w) = true →
  (list_notes query w).1 = Ret [].
Proof.
  intros Hkey Hout. destruct (no_query query) eqn:Hq.
  - destruct (list_notes_unranked query w Hq) as (w' & Hrun & _). rewrite Hrun.
    unfold listed. rewrite Hout.
    by destruct (client_of w), (qdrant w !! QDRANT_COLLECTION_NAME).
  - apply no_query_false in Hq as (q & -> & Hq). rewrite (list_notes_ranked q w Hq).
    cbv zeta. rewrite Hkey.
    rewrite (outage_next_ext _ (connected w)) by apply connected_add_log_outages.
    rewrite Hout. by destruct (client_of w).
Qed.


(** *** The embedding *)

(** The contract of the embedding provider: a request for one text with
    [dimensions] = d is answered with one vector of length d. *)
Definition provider_contract : Prop :=
  ∀ text model d, 0 < d →
    ∃ v, embedding_provider [text] model d = [v] ∧ Z.of_nat (length v) = d.

(** C9: under the provider's contract, every vector [get_embedding]
    returns has exactly 3072 elements, and it does return one for every
    text when an OpenAI key is configured and the request is answered.
    Otherwise [get_embedding] raises the connection failure or, without a
    key, stops the script. *)
Theorem get_embedding_dimension text w :
  provider_contract →
  (∀ v w', embed text w = (Ret v, w') → Z.of_nat (length v) = EMBEDDING_DIM)
  ∧ (truthy (openai_key w) = true → outage_next w = false →
       ∃ v, (embed text w).1 = Ret v ∧ Z.of_nat (length v) = 3072)
  ∧ (truthy (openai_key w) = true → outage_next w = true →
       (embed text w).1 = Raise ConnectionFailed)
  ∧ (truthy (openai_key w) = false → (embed text w).1 = Halt CtlStop).
Proof.
  intros Hcontract.
  destruct (Hcontract text EMBEDDING_MODEL EMBEDDING_DIM) as (v & Hv & Hlen); [done|].
  rewrite get_embedding_spec, Hv.
  destruct (truthy (openai_key w)), (outage_next w); split_and!; try done.
  - intros v' w' [= <- _]. done.
  - intros _ _. by exists v.
Qed.


(** *** The draft *)

Local Abbreviation capture := (capture_audio md5).

(** C3: when audio is captured whose MD5 is not the one the session
    remembers, the transcript and the edited text become empty and the
    session remembers the new MD5; when the MD5 is the remembered one, as
    it is for the same bytes captured again, the transcript, the edited
    text and the remembered MD5 stay as they are.  In both cases the
    session holds the captured bytes afterwards. *)
Theorem capture_audio_resets_on_new_fingerprint mp3 (ss : gmap string PyVal) :
  (py_get ss "note_audio_bytes_md5" ≠ PyStr (md5 mp3) →
     capture mp3 ss !! "note_audio_text" = Some (PyStr "")
     ∧ capture mp3 ss !! "note_text" = Some (PyStr "")
     ∧ capture mp3 ss !! "note_audio_bytes_md5" = Some (PyStr (md5 mp3)))
  ∧ (py_get ss "note_audio_bytes_md5" = PyStr (md5 mp3) →
       capture mp3 ss !! "note_audio_text" = ss !! "note_audio_text"
       ∧ capture mp3 ss !! "note_text" = ss !! "note_text"
       ∧ capture mp3 ss !! "note_audio_bytes_md5" = ss !! "note_audio_bytes_md5")
  ∧ capture mp3 ss !! "note_audio_bytes" = Some (PyBytes mp3)
  ∧ (∀ transcript edited,
       let ss' := <["note_text" := edited]>
                    (<["note_audio_text" := transcript]> (capture mp3 ss)) in
       capture mp3 ss' !! "note_audio_text" = Some transcript
       ∧ capture mp3 ss' !! "note_text" = Some edited).
Proof.
  assert (Hget : ∀ s : gmap string PyVal,
            py_get (<["note_audio_bytes" := PyBytes mp3]> s) "note_audio_bytes_md5"
            = py_get s "note_audio_bytes_md5").
  { intros s. unfold py_get. by rewrite lookup_insert_ne. }
  assert (Hafter : ∀ s : gmap string PyVal,
            capture mp3 s !! "note_audio_bytes_md5" = Some (PyStr (md5 mp3))).
  { intros s. unfold capture_audio. rewrite Hget. case_bool_decide as Hd.
    - by rewrite lookup_insert_eq.
    - rewrite lookup_insert_ne by done.
      unfold py_get in Hd. destruct (s !! "note_audio_bytes_md5"); by simplify_eq/=. }
  split_and!.
  - intros Hne. unfold capture_audio. rewrite Hget, bool_decide_true by done.
    by simplify_map_eq.
  - intros Heq. unfold capture_audio. rewrite Hget, bool_decide_false by (by intros []).
    by simplify_map_eq.
  - unfold capture_audio. rewrite Hget. case_bool_decide; by simplify_map_eq.
  - intros transcript edited ss'.
    assert (Hsame : py_get ss' "note_audio_bytes_md5" = PyStr (md5 mp3)).
    { unfold py_get. subst ss'. rewrite !lookup_insert_ne by done. by rewrite Hafter. }
    unfold capture_audio. rewrite Hget, bool_decide_false by (by intros []).
    subst ss'. by simplify_map_eq.
Qed.


(** *** The bootstrap of the collection *)

(** The collection the bootstrap creates. *)
Definition fresh_collection : Collection :=
  mkCollection (mkVectorParams EMBEDDING_DIM COSINE) ∅.

(** [assure_db_collection_exists], case by case. *)
Lemma assure_spec w :
  let w0 := connected w in
  let w1 := sent (ReqCollectionExists QDRANT_COLLECTION_NAME) w0 in
  let w2 := sent (ReqCreateCollection QDRANT_COLLECTION_NAME
                    (mkVectorParams EMBEDDING_DIM COSINE)) w1 in
  assure_db_collection_exists w =
    match client_of w with
    | None => (Halt CtlStop, w0)
    | Some _ =>
        if outage_next w0 then (Halt CtlStop, w1)
        else match qdrant w !! QDRANT_COLLECTION_NAME with
             | Some _ => (Ret tt, w1)
             | None =>
                 if outage_next w1 then (Halt CtlStop, w2)
                 else (Ret tt,
                       set_qdrant (insert QDRANT_COLLECTION_NAME fresh_collection) w2)
             end
    end.
Proof.
  intros w0 w1 w2. unfold assure_db_collection_exists.
  unfold bind at 1. rewrite get_qdrant_client_spec. fold w0.
  destruct (client_of w) as [c|]; [|done].
  unfold bind at 1. unfold ret at 1. unfold try_except.
  unfold bind at 1. unfold the_client, ret at 1.
  unfold bind at 1. unfold Qdrant.collection_exists.
  unfold bind at 1. rewrite send_spec. fold w1.
  destruct (outage_next w0); [done|].
  unfold bind at 1. unfold get_world at 1. unfold ret at 1.
  change (qdrant w1) with (qdrant w0). subst w0. rewrite connected_qdrant.
  destruct (qdrant w !! QDRANT_COLLECTION_NAME) as [col|] eqn:Hcol.
  { rewrite bool_decide_true by done. done. }
  rewrite bool_decide_false by (by intros [? ?]). cbn [negb].
  unfold bind at 1. unfold Qdrant.create_collection.
  unfold bind at 1. rewrite send_spec. fold w2.
  destruct (outage_next w1); [done|].
  unfold bind at 1. unfold get_world at 1.
  change (qdrant w2) with (qdrant (connected w)). rewrite connected_qdrant, Hcol.
  done.
Qed.

(** Requests that read the store and do not change it. *)
Definition read_only (r : Request) : Prop :=
  r = ReqGetCollections ∨ r = ReqCollectionExists QDRANT_COLLECTION_NAME.


(** C2: [assure_db_collection_exists] is idempotent.  In every world in
    which the collection exists, a call leaves the store as it is, and so
    the collection's schema and point count, and sends nothing but the
    connection check and the existence check.  After a call that returned,
    the collection exists, with size 3072, the cosine metric and no
    points when this call created it, so a second call changes nothing. *)
Theorem assure_db_collection_exists_idempotent w :
  (∀ col, qdrant w !! QDRANT_COLLECTION_NAME = Some col →
     qdrant (assure_db_collection_exists w).2 = qdrant w
     ∧ ∃ new, requests (log (assure_db_collection_exists w).2) = requests (log w) ++ new
              ∧ Forall read_only new)
  ∧ (∀ w1, assure_db_collection_exists w = (Ret tt, w1) →
       (∃ col, qdrant w1 !! QDRANT_COLLECTION_NAME = Some col
               ∧ (qdrant w !! QDRANT_COLLECTION_NAME = None → col = fresh_collection)
               ∧ (qdrant w !! QDRANT_COLLECTION_NAME = Some col ∨
                  qdrant w !! QDRANT_COLLECTION_NAME = None))
       ∧ qdrant (assure_db_collection_exists w1).2 = qdrant w1
       ∧ point_count (assure_db_collection_exists w1).2 = point_count w1).
Proof.
  assert (Hkeep : ∀ w0 col, qdrant w0 !! QDRANT_COLLECTION_NAME = Some col →
            qdrant (assure_db_collection_exists w0).2 = qdrant w0).
  { intros w0 col Hcol. rewrite assure_spec. cbv zeta. rewrite Hcol.
    destruct (client_of w0); [destruct (outage_next _)|]; cbn [snd];
      rewrite ?sent_qdrant; by rewrite connected_qdrant. }
  split.
  - intros col Hcol. split; [by eapply Hkeep|].
    rewrite assure_spec. cbv zeta. rewrite Hcol.
    destruct (client_of w); [destruct (outage_next _)|]; cbn [snd];
      rewrite ?sent_requests, connected_requests, <-?app_assoc;
      (eexists; split; [done|]); unfold connect_requests, read_only;
      destruct (client_cache w); cbn;
      repeat first [apply Forall_nil_2 | apply Forall_cons_2]; auto.
  - intros w1 Hrun.
    assert (Hex : ∃ col, qdrant w1 !! QDRANT_COLLECTION_NAME = Some col
               ∧ (qdrant w !! QDRANT_COLLECTION_NAME = None → col = fresh_collection)
               ∧ (qdrant w !! QDRANT_COLLECTION_NAME = Some col ∨
                  qdrant w !! QDRANT_COLLECTION_NAME = None)).
    { rewrite assure_spec in Hrun. cbv zeta in Hrun.
      destruct (client_of w); [|done].
      destruct (outage_next (connected w)); [done|].
      destruct (qdrant w !! QDRANT_COLLECTION_NAME) as [col|] eqn:Hcol.
      - injection Hrun as <-. exists col.
        rewrite sent_qdrant, connected_qdrant. split_and!; [done|done|by left].
      - destruct (outage_next _); [done|]. injection Hrun as <-.
        exists fresh_collection. cbn [qdrant set_qdrant].
        rewrite lookup_insert_eq. split_and!; [done|done|by right]. }
    split; [done|]. destruct Hex as (col & Hcol & _).
    pose proof (Hkeep w1 col Hcol) as Hsame. split; [done|].
    unfold point_count. by rewrite Hsame.
Qed.


(** *** A run of the script *)

Local Abbreviation script_main :=
  (main md5 embedding_provider transcription_provider similarity).
Local Abbreviation script_runs :=
  (runs md5 embedding_provider transcription_provider similarity).

(** Two worlds that differ at most in the session dictionary. *)
Definition same_but_session (w w' : World) : Prop :=
  qdrant w' = qdrant w ∧ outages w' = outages w ∧ client_cache w' = client_cache w
  ∧ secrets w' = secrets w ∧ dotenv w' = dotenv w ∧ log w' = log w.

Lemma same_but_session_refl w : same_but_session w w.
Proof. by repeat split. Qed.

Lemma same_but_session_set f w : same_but_session w (set_session_state f w).
Proof. by repeat split. Qed.

Lemma same_but_session_trans w1 w2 w3 :
  same_but_session w1 w2 → same_but_session w2 w3 → same_but_session w1 w3.
Proof.
  intros (?&?&?&?&?&?) (?&?&?&?&?&?). repeat split; congruence.
Qed.

Lemma same_but_session_client w w' :
  same_but_session w w' → client_of w' = client_of w.
Proof.
  intros (_ & Ho & Hc & Hs & Hd & _). unfold client_of, outage_next, env.
  by rewrite Ho, Hc, Hs, Hd.
Qed.

(** The gate lets the script go on only with a key in the session; it
    touches nothing but the session. *)
Lemma api_key_gate_spec i w :
  ∃ o w', api_key_gate i w = (o, w')
          ∧ same_but_session w w'
          ∧ (o = Ret tt ∧ truthy (py_get (session_state w') "openai_api_key") = true
             ∨ ∃ c, o = Halt c).
Proof.
  unfold api_key_gate. unfold bind at 1. unfold get_world at 1.
  destruct (truthy (py_get (session_state w) "openai_api_key")) eqn:Hkey; cbn [negb].
  - unfold bind at 1. unfold ret at 1. unfold bind, get_world. rewrite Hkey. cbn.
    eexists _, _. split; [done|]. split; [apply same_but_session_refl|]. by left.
  - destruct (env w !! "OPENAI_API_KEY") as [k|].
    + unfold bind at 1. unfold session_set, modify. unfold bind, get_world.
      set (w' := set_session_state _ w).
      destruct (truthy (py_get (session_state w') "openai_api_key")) eqn:Hk'; cbn.
      * eexists _, w'. split; [done|]. split; [apply same_but_session_set|]. by left.
      * eexists _, w'. split; [done|]. split; [apply same_but_session_set|]. right. by eexists.
    + unfold bind at 1. unfold bind at 1. unfold session_set, modify.
      set (w' := set_session_state _ w).
      destruct (str_truthy (in_api_key i)) eqn:Hin.
      * eexists _, w'. split; [done|]. split; [apply same_but_session_set|]. right. by eexists.
      * unfold ret at 1. unfold bind, get_world.
        destruct (truthy (py_get (session_state w') "openai_api_key")) eqn:Hk'; cbn.
        -- eexists _, w'. split; [done|]. split; [apply same_but_session_set|]. by left.
        -- eexists _, w'. split; [done|]. split; [apply same_but_session_set|].
           right. by eexists.
Qed.

(** With a key in the session the gate does nothing. *)
Lemma api_key_gate_pass i w :
  truthy (py_get (session_state w) "openai_api_key") = true →
  api_key_gate i w = (Ret tt, w).
Proof.
  intros Hkey. unfold api_key_gate. unfold bind at 1. unfold get_world at 1.
  rewrite Hkey. cbn [negb]. unfold bind at 1. unfold ret at 1.
  unfold bind, get_world. by rewrite Hkey.
Qed.

Lemma session_default_key k v (ss : gmap string PyVal) k' :
  k ≠ k' → session_default k v ss !! k' = ss !! k'.
Proof.
  intros Hne. unfold session_default. destruct (ss !! k); [done|].
  by rewrite lookup_insert_ne.
Qed.

Lemma init_session_spec w :
  ∃ w', init_session w = (Ret tt, w')
        ∧ same_but_session w w'
        ∧ py_get (session_state w') "openai_api_key"
          = py_get (session_state w) "openai_api_key".
Proof.
  unfold init_session, bind, modify. eexists. split; [done|]. split.
  - by repeat split.
  - unfold py_get. cbn. by rewrite !session_default_key.
Qed.

(** The key the OpenAI client will use is there once the session holds
    one. *)
Lemma openai_key_session w :
  truthy (py_get (session_state w) "openai_api_key") = true →
  truthy (openai_key w) = true.
Proof.
  intros Hkey. unfold openai_key, py_or.
  destruct (secrets w !! "OPENAI_API_KEY") as [s|]; [|done].
  by destruct (str_truthy s) eqn:Hs.
Qed.

(** The bootstrap without the cache button: either the gate ends the run,
    or [assure_db_collection_exists] runs in a world that differs from
    the first one in the session only and holds a key. *)
Lemma bootstrap_cases i w :
  in_clear_cache i = false →
  ∃ wi, same_but_session w wi
        ∧ ((∃ c, bootstrap i w = (Halt c, wi))
           ∨ truthy (py_get (session_state wi) "openai_api_key") = true
             ∧ bootstrap i w = assure_db_collection_exists wi).
Proof.
  intros Hclear.
  assert (Hrun : bootstrap i w
                 = (api_key_gate i ;; init_session ;; assure_db_collection_exists) w).
  { unfold bootstrap. by rewrite Hclear. }
  rewrite Hrun. clear Hrun. unfold bind.
  destruct (api_key_gate_spec i w) as (o & wg & -> & Hsame & [[-> Hkey]|[c ->]]).
  - destruct (init_session_spec wg) as (wi & -> & Hsame' & Hkey').
    exists wi. split; [by eapply same_but_session_trans|]. right.
    split; [congruence|done].
  - exists wg. split; [done|]. left. by exists c.
Qed.


Lemma bootstrap_pass i w :
  in_clear_cache i = false →
  truthy (py_get (session_state w) "openai_api_key") = true →
  ∃ wi, same_but_session w wi
        ∧ truthy (py_get (session_state wi) "openai_api_key") = true
        ∧ bootstrap i w = assure_db_collection_exists wi.
Proof.
  intros Hclear Hkey.
  assert (Hrun : bootstrap i w
                 = (api_key_gate i ;; init_session ;; assure_db_collection_exists) w).
  { unfold bootstrap. by rewrite Hclear. }
  rewrite Hrun. clear Hrun. unfold bind. rewrite (api_key_gate_pass i w Hkey).
  destruct (init_session_spec w) as (wi & -> & Hsame & Hkey').
  exists wi. split; [done|]. split; [congruence|done].
Qed.

Lemma main_halts i w c w' :
  bootstrap i w = (Halt c, w') → script_main i w = (Halt c, w').
Proof. intros H. unfold main. unfold bind at 1. by rewrite H. Qed.

(** Without a store client the bootstrap ends the run. *)
Lemma assure_no_client w :
  client_of w = None →
  assure_db_collection_exists w = (Halt CtlStop, connected w).
Proof. intros Hc. rewrite assure_spec. cbv zeta. by rewrite Hc. Qed.

(** A memoized failure keeps every run from reaching the store. *)
Lemma run_stuck i w :
  in_clear_cache i = false → client_cache w = Some None →
  (∃ c, (script_main i w).1 = Halt c)
  ∧ same_but_session w (run md5 embedding_provider transcription_provider similarity w i).
Proof.
  intros Hclear Hcache. unfold run.
  destruct (bootstrap_cases i w Hclear) as (wi & Hsame & [[c Hrun]|[Hkey Hrun]]).
  - rewrite (main_halts _ _ _ _ Hrun). split; [by exists c|done].
  - assert (Hci : client_cache wi = Some None) by (destruct Hsame as (_&_&->&_); done).
    assert (Hnone : client_of wi = None) by (unfold client_of; by rewrite Hci).
    rewrite (assure_no_client wi Hnone) in Hrun.
    rewrite (main_halts _ _ _ _ Hrun). split; [by exists CtlStop|].
    unfold connected. by rewrite Hci.
Qed.

Lemma runs_stuck ins w :
  Forall (λ i, in_clear_cache i = false) ins → client_cache w = Some None →
  same_but_session w (script_runs w ins).
Proof.
  intros Hins. revert w. induction Hins as [|i ins Hi _ IH]; intros w Hcache.
  - apply same_but_session_refl.
  - cbn [runs foldl]. destruct (run_stuck i w Hi Hcache) as [_ Hsame].
    eapply same_but_session_trans; [done|]. apply IH.
    destruct Hsame as (_ & _ & -> & _). done.
Qed.


(** The only request of a failed bootstrap is the connection check. *)
Definition connection_check (r : Request) : Prop := r = ReqGetCollections.

(** C8: when the bootstrap gets no store client, because the store does
    not answer the connection check or because an earlier failure is
    memoized, the run ends there: neither [add_note_to_db] nor
    [list_notes_from_db] is entered, the store is not changed, and with a
    key in the session the run ends by [st.stop] with the failure
    memoized.  While the failure is memoized, every further run without
    the cache button ends the same way and sends nothing at all, whether
    or not the store answers again.  The cache button clears the memo
    and reruns the script; a run that then finds the store answering
    passes the bootstrap, with a client memoized and the collection in
    place. *)
Theorem unreachable_store_halts i w :
  (in_clear_cache i = false → client_of w = None →
     ∃ c w' new,
       script_main i w = (Halt c, w')
       ∧ invocations (log w') = invocations (log w)
       ∧ requests (log w') = requests (log w) ++ new
       ∧ Forall connection_check new
       ∧ qdrant w' = qdrant w
       ∧ (truthy (py_get (session_state w) "openai_api_key") = true →
            c = CtlStop ∧ client_cache w' = Some None))
  ∧ (∀ ins, client_cache w = Some None →
       Forall (λ i, in_clear_cache i = false) ins →
       client_cache (script_runs w ins) = Some None
       ∧ log (script_runs w ins) = log w
       ∧ qdrant (script_runs w ins) = qdrant w)
  ∧ (in_clear_cache i = true →
       script_main i w = (Halt CtlRerun, set_client_cache None w))
  ∧ (in_clear_cache i = false → client_cache w = None → answered 3 w →
     truthy (py_get (session_state w) "openai_api_key") = true →
       ∃ w' c,
         bootstrap i w = (Ret tt, w')
         ∧ client_cache w' = Some (Some c)
         ∧ is_Some (qdrant w' !! QDRANT_COLLECTION_NAME)).
Proof.
  split_and!.
  - intros Hclear Hnone.
    assert (Hstop : ∀ wi, same_but_session w wi →
              bootstrap i w = assure_db_collection_exists wi →
              script_main i w = (Halt CtlStop, connected wi)
              ∧ invocations (log (connected wi)) = invocations (log w)
              ∧ requests (log (connected wi)) = requests (log w) ++ connect_requests wi
              ∧ qdrant (connected wi) = qdrant w
              ∧ client_cache (connected wi) = Some None).
    { intros wi Hsame Hrun.
      assert (Hni : client_of wi = None) by by rewrite (same_but_session_client w wi).
      rewrite (assure_no_client wi Hni) in Hrun.
      destruct Hsame as (Hq & _ & _ & _ & _ & Hl).
      split_and!.
      - by apply main_halts.
      - by rewrite connected_invocations, Hl.
      - by rewrite connected_requests, Hl.
      - by rewrite connected_qdrant.
      - by rewrite connected_cache, Hni. }
    assert (Hcheck : ∀ wi, Forall connection_check (connect_requests wi)).
    { intros wi. unfold connect_requests. destruct (client_cache wi); by repeat constructor. }
    destruct (bootstrap_cases i w Hclear) as (wi & Hsame & [[c Hrun]|[Hkey Hrun]]).
    + exists c, wi, []. destruct Hsame as (Hq & _ & _ & _ & _ & Hl).
      split_and!; [by apply main_halts|by rewrite Hl|by rewrite Hl, app_nil_r|done|done|].
      intros Hkey. destruct (bootstrap_pass i w Hclear Hkey) as (wj & Hsame' & _ & Hrun').
      destruct (Hstop wj Hsame' Hrun') as (Hm & _ & _ & _ & Hc).
      rewrite (main_halts _ _ _ _ Hrun) in Hm. by simplify_eq.
    + destruct (Hstop wi Hsame Hrun) as (Hm & Hinv & Hreq & Hq & Hc).
      exists CtlStop, (connected wi), (connect_requests wi). split_and!; auto.
  - intros ins Hcache Hins.
    destruct (runs_stuck ins w Hins Hcache) as (Hq & _ & Hc & _ & _ & Hl).
    by rewrite Hq, Hc, Hl.
  - intros Hclear. unfold main, bootstrap. by rewrite Hclear.
  - intros Hclear Hcache Hans Hkey.
    destruct (bootstrap_pass i w Hclear Hkey) as (wi & Hsame & _ & ->).
    destruct Hsame as (Hq & Ho & Hc & Hs & Hd & Hl).
    rewrite Hcache in Hc.
    assert (Hans' : answered 3 wi) by (by eapply answered_ext).
    apply (answered_S 2 ReqGetCollections) in Hans' as [Ho0 Hans'].
    assert (Hout : outages (connected wi) = outages (sent ReqGetCollections wi)).
    { unfold connected. by rewrite Hc. }
    apply (answered_ext _ _ (connected wi)) in Hans'; [|done].
    apply (answered_S 1 (ReqCollectionExists QDRANT_COLLECTION_NAME)) in Hans' as [Ho1 Hans'].
    apply (answered_S 0 (ReqCreateCollection QDRANT_COLLECTION_NAME
                           (mkVectorParams EMBEDDING_DIM COSINE))) in Hans' as [Ho2 _].
    rewrite assure_spec. cbv zeta.
    assert (Hclient : client_of wi
              = Some (mkQdrantClient (env wi !! "QDRANT_URL") (env wi !! "QDRANT_API_KEY"))).
    { unfold client_of. by rewrite Hc, Ho0. }
    rewrite Hclient, Ho1.
    assert (Hcc : ∀ r1 r2, client_cache (sent r1 (sent r2 (connected wi))) = Some (client_of wi)).
    { intros r1 r2. apply connected_cache. }
    destruct (qdrant wi !! QDRANT_COLLECTION_NAME) as [col|] eqn:Hcol.
    + eexists _, _. split; [done|]. split.
      * change (client_cache (sent ?r ?w0)) with (client_cache w0).
        by rewrite connected_cache, Hclient.
      * rewrite sent_qdrant, connected_qdrant, Hcol. by eexists.
    + rewrite Ho2. eexists _, _. split; [done|]. split.
      * cbn [client_cache set_qdrant]. by rewrite Hcc, Hclient.
      * cbn [qdrant set_qdrant]. rewrite lookup_insert_eq. by eexists.
Qed.


(** *** After the bootstrap nothing stops the script *)

(** An OpenAI key is configured. *)
Definition keyed (w : World) : Prop := truthy (openai_key w) = true.

(** A computation that, run with a key configured, keeps it configured
    and is not ended by [st.stop] or [st.rerun]. *)
Definition unstopped {A} (m : M A) : Prop :=
  ∀ w, keyed w → keyed (m w).2 ∧ ∀ c, (m w).1 ≠ Halt c.

Lemma unstopped_ret {A} (a : A) : unstopped (ret a).
Proof. by intros w Hk. Qed.

Lemma unstopped_raise {A} e : unstopped (raise (A := A) e).
Proof. by intros w Hk. Qed.

Lemma unstopped_bind {A B} (m : M A) (k : A → M B) :
  unstopped m → (∀ a, unstopped (k a)) → unstopped (bind m k).
Proof.
  intros Hm Hk w Hw. unfold bind. destruct (Hm w Hw) as [Hw' Hc].
  destruct (m w) as [[a|e|c] w']; cbn in *.
  - by apply Hk.
  - done.
  - by destruct (Hc c).
Qed.

Lemma unstopped_try {A} (m : M A) (h : Exn → M A) :
  unstopped m → (∀ e, unstopped (h e)) → unstopped (try_except m h).
Proof.
  intros Hm Hh w Hw. unfold try_except. destruct (Hm w Hw) as [Hw' Hc].
  destruct (m w) as [[a|e|c] w']; cbn in *.
  - done.
  - by apply Hh.
  - by destruct (Hc c).
Qed.

Lemma unstopped_get_world : unstopped get_world.
Proof. by intros w Hk. Qed.

Lemma unstopped_modify (f : World → World) :
  (∀ w, openai_key (f w) = openai_key w) → unstopped (modify f).
Proof. intros Hf w Hk. split; [|done]. unfold keyed, modify. cbn. by rewrite Hf. Qed.

Lemma unstopped_send r : unstopped (send r).
Proof. intros w Hk. rewrite send_spec. split; [done|]. by destruct (outage_next w). Qed.

Lemma unstopped_for_each {A B} (f : A → M B) l :
  (∀ x, unstopped (f x)) → unstopped (for_each f l).
Proof.
  intros Hf. induction l as [|x l IH]; [apply unstopped_ret|].
  cbn [for_each]. apply unstopped_bind; [done|]. intros y.
  apply unstopped_bind; [done|]. intros ys. apply unstopped_ret.
Qed.

Lemma unstopped_openai_client : unstopped get_openai_client.
Proof.
  intros w Hk. rewrite get_openai_client_spec. unfold keyed in Hk. by rewrite Hk.
Qed.

Lemma unstopped_get_qdrant_client : unstopped get_qdrant_client.
Proof.
  intros w Hk. rewrite get_qdrant_client_spec. split; [|done].
  unfold keyed, openai_key. cbn [snd]. by rewrite connected_secrets, connected_session.
Qed.

Lemma unstopped_session_set k v :
  k ≠ "openai_api_key" → unstopped (session_set k v).
Proof.
  intros Hne. apply unstopped_modify. intros w. unfold openai_key, py_get. cbn.
  by rewrite lookup_insert_ne.
Qed.

Lemma unstopped_lookup_collection name : unstopped (Qdrant.lookup_collection name).
Proof.
  unfold Qdrant.lookup_collection. apply unstopped_bind; [apply unstopped_get_world|].
  intros w. destruct (qdrant w !! name); [apply unstopped_ret|apply unstopped_raise].
Qed.

Lemma unstopped_session_item k : unstopped (session_item k).
Proof.
  unfold session_item. apply unstopped_bind; [apply unstopped_get_world|].
  intros w. destruct (session_state w !! k); [apply unstopped_ret|apply unstopped_raise].
Qed.

Lemma capture_audio_other mp3 (ss : gmap string PyVal) :
  capture_audio md5 mp3 ss !! "openai_api_key" = ss !! "openai_api_key".
Proof. unfold capture_audio. case_bool_decide; by rewrite !lookup_insert_ne. Qed.

(** The steps of the script, one rule each. *)
Ltac unstopped_step :=
  lazymatch goal with
  | |- unstopped (ret _) => apply unstopped_ret
  | |- unstopped (raise _) => apply unstopped_raise
  | |- unstopped get_world => apply unstopped_get_world
  | |- unstopped (send _) => apply unstopped_send
  | |- unstopped get_openai_client => apply unstopped_openai_client
  | |- unstopped get_qdrant_client => apply unstopped_get_qdrant_client
  | |- unstopped (Qdrant.lookup_collection _) => apply unstopped_lookup_collection
  | |- unstopped (session_item _) => apply unstopped_session_item
  | |- unstopped (session_set _ _) => apply unstopped_session_set; done
  | |- unstopped (modify _) =>
      apply unstopped_modify; intros ?;
      unfold openai_key, py_get, clear_form; cbn;
      rewrite ?capture_audio_other, ?lookup_insert_ne by done; done
  | |- unstopped (for_each _ _) => apply unstopped_for_each; intros ?
  | |- unstopped (try_except _ _) => apply unstopped_try; [|intros ?]
  | |- unstopped (bind _ _) => apply unstopped_bind; [|intros ?]
  | |- unstopped (match ?x with _ => _ end) => destruct x
  end.

Lemma unstopped_get_embedding text : unstopped (embed text).
Proof. unfold get_embedding, OpenAI.embeddings_create. repeat unstopped_step. Qed.

Lemma unstopped_add_note text : unstopped (add_note text).
Proof.
  unfold add_note_to_db, add_note_body, Qdrant.count_points, Qdrant.upsert.
  repeat first [apply unstopped_get_embedding | unstopped_step].
Qed.

Lemma unstopped_list_notes query : unstopped (list_notes query).
Proof.
  unfold list_notes_from_db, list_notes_body, Qdrant.scroll, Qdrant.search, payload_text.
  repeat first [apply unstopped_get_embedding | unstopped_step].
Qed.

Lemma unstopped_tabs i :
  unstopped (add_tab md5 embedding_provider transcription_provider i ;;
             search_tab embedding_provider similarity i).
Proof.
  unfold add_tab, search_tab, transcribe_audio, OpenAI.transcriptions_create.
  repeat first [apply unstopped_add_note | apply unstopped_list_notes | unstopped_step].
Qed.

(** A bootstrap that returns leaves a key configured. *)
Lemma bootstrap_keyed i w w' : bootstrap i w = (Ret tt, w') → keyed w'.
Proof.
  intros Hrun. destruct (in_clear_cache i) eqn:Hclear.
  { unfold bootstrap in Hrun. by rewrite Hclear in Hrun. }
  destruct (bootstrap_cases i w Hclear) as (wi & _ & [[c Hh]|[Hkey Ha]]); [congruence|].
  rewrite Ha in Hrun. apply openai_key_session in Hkey.
  assert (Hsame : openai_key w' = openai_key wi).
  { rewrite assure_spec in Hrun. cbv zeta in Hrun.
    destruct (client_of wi); [|done].
    destruct (outage_next _); [done|].
    destruct (qdrant wi !! _).
    - injection Hrun as <-. unfold openai_key. cbn.
      by rewrite connected_secrets, connected_session.
    - destruct (outage_next _); [done|]. injection Hrun as <-.
      unfold openai_key. cbn. by rewrite connected_secrets, connected_session. }
  unfold keyed. by rewrite Hsame.
Qed.


(** C6: [add_note_to_db] and [list_notes_from_db] raise nothing to their
    caller.  Whatever exception their [try] block raises, [add_note_to_db]
    returns [False] and [list_notes_from_db] returns the empty list; so
    they do when there is no connection.  With an OpenAI key configured,
    as the bootstrap of the page makes sure, both return: [add_note_to_db]
    returns [False] unless every step went well, and [list_notes_from_db]
    returns the empty list when its first request is not answered.
    Without a key the only other outcome is the script stop of
    [get_openai_client]; it does not occur in a run of the page, where a
    bootstrap that returned leaves a key configured and the two tabs are
    then not stopped. *)
Theorem repository_never_raises text query w :
  (∀ e, (add_note text w).1 ≠ Raise e)
  ∧ (∀ e, (list_notes query w).1 ≠ Raise e)
  ∧ (∀ e, (add_note_body embedding_provider text (add_log (EvInvoke OpAddNote) w)).1 = Raise e →
          (add_note text w).1 = Ret false)
  ∧ (∀ e, (list_notes_body embedding_provider similarity query
             (add_log (EvInvoke OpListNotes) w)).1 = Raise e →
          (list_notes query w).1 = Ret [])
  ∧ (client_of w = None →
       (add_note text w).1 = Ret false ∧ (list_notes query w).1 = Ret [])
  ∧ (truthy (openai_key w) = true →
       (∃ b, (add_note text w).1 = Ret b)
       ∧ (¬ add_succeeds text w → (add_note text w).1 = Ret false)
       ∧ (∃ rs, (list_notes query w).1 = Ret rs)
       ∧ (outage_next (connected w) = true → (list_notes query w).1 = Ret []))
  ∧ (truthy (openai_key w) = false →
       ((add_note text w).1 = Ret false ∨ (add_note text w).1 = Halt CtlStop)
       ∧ ((∃ rs, (list_notes query w).1 = Ret rs) ∨ (list_notes query w).1 = Halt CtlStop))
  ∧ (∀ i w0 w1, bootstrap i w0 = (Ret tt, w1) →
       keyed w1
       ∧ ∀ c, ((add_tab md5 embedding_provider transcription_provider i ;;
                search_tab embedding_provider similarity i) w1).1 ≠ Halt c).
Proof.
  split_and!.
  - intros e. rewrite add_note_unfold. apply try_except_no_raise.
  - intros e. rewrite list_notes_unfold. apply try_except_no_raise.
  - intros e He. rewrite add_note_unfold. by eapply try_except_caught.
  - intros e He. rewrite list_notes_unfold. by eapply try_except_caught.
  - intros Hc. split; [|by apply list_notes_no_client].
    rewrite add_note_spec. cbv zeta. by rewrite Hc.
  - intros Hkey. split_and!.
    + destruct (add_note_outcome text w) as [H|[H|[_ H]]]; [by eauto..|congruence].
    + intros Hno. destruct (add_note_outcome text w) as [H|[H|[_ H]]];
        [|done|congruence]. by apply add_note_true_iff in H.
    + destruct (list_notes_outcome query w) as [H|[_ H]]; [done|congruence].
    + by apply list_notes_first_outage.
  - intros Hkey. split.
    + destruct (add_note_outcome text w) as [H|[H|[H _]]]; [|by auto..].
      apply add_note_true_iff in H as (_ & _ & H & _). congruence.
    + destruct (list_notes_outcome query w) as [H|[H _]]; auto.
  - intros i w0 w1 Hboot. pose proof (bootstrap_keyed i w0 w1 Hboot) as Hk.
    split; [done|]. by apply unstopped_tabs.
Qed.

End Properties.


(** ** The script on the sample worlds *)

Definition sample_add (text : string) : M bool :=
  add_note_to_db sample_embedding text.

Definition sample_list (query : option string) : M (list NoteResult) :=
  list_notes_from_db sample_embedding sample_similarity query.

Definition sample_main (i : Inputs) : M (list NoteResult) :=
  main sample_md5 sample_embedding sample_transcription sample_similarity i.

(** The booted world after two notes were added. *)
Definition one_note_world : World := (sample_add "buy milk" booted_world).2.
Definition two_notes_world : World := (sample_add "call mom today" one_note_world).2.

Lemma sample_contract : provider_contract sample_embedding.
Proof.
  intros text model d Hd. eexists. split; [reflexivity|].
  cbn [length]. rewrite length_replicate. lia.
Qed.

(** An empty collection, one note added, listed without a query. *)
Example list_after_first_note :
  (sample_add "buy milk" booted_world).1 = Ret true
  ∧ (sample_list None one_note_world).1 = Ret [mkNoteResult "buy milk" None].
Proof. vm_compute. done. Qed.

(** Two notes added one after the other get the ids 1 and 2. *)
Example two_notes_ids :
  (dom ∘ col_points) <$> (qdrant two_notes_world !! QDRANT_COLLECTION_NAME)
  = Some ({[1; 2]} : gset Z).
Proof. vm_compute. done. Qed.

(** A search ranks the notes by the store's score, highest first. *)
Example search_ranks :
  (sample_list (Some "grocery") two_notes_world).1
  = Ret [mkNoteResult "call mom today" (Some (inject_Z 98));
         mkNoteResult "buy milk" (Some (inject_Z 56))].
Proof. vm_compute. done. Qed.

(** A run against a store that does not answer stops in the bootstrap, and
    so does the next run although the store would answer again. *)
Example down_store_stops :
  (sample_main (search_input "milk") down_world).1 = Halt CtlStop
  ∧ (sample_main (search_input "milk")
       (sample_main (search_input "milk") down_world).2).1 = Halt CtlStop
  ∧ log (sample_main (search_input "milk")
           (sample_main (search_input "milk") down_world).2).2
    = [EvRequest ReqGetCollections].
Proof. vm_compute. done. Qed.

(** After the cache button the next run reaches the store again. *)
Example clear_cache_recovers :
  let w1 := (sample_main no_input down_world).2 in
  let w2 := (sample_main clear_input w1).2 in
  (sample_main clear_input w1).1 = Halt CtlRerun
  ∧ (sample_main (search_input "") w2).1 = Ret []
  ∧ invocations (log (sample_main (search_input "") w2).2) = [OpListNotes].
Proof. vm_compute. done. Qed.

(** The bootstrap run twice: the first call creates the collection with
    size 3072 and the cosine metric, the second changes nothing. *)
Example assure_twice :
  let w1 := (assure_db_collection_exists fresh_world).2 in
  let w2 := (assure_db_collection_exists w1).2 in
  qdrant w1 !! QDRANT_COLLECTION_NAME
  = Some (mkCollection (mkVectorParams 3072 COSINE) ∅)
  ∧ qdrant w2 = qdrant w1
  ∧ requests (log w2)
    = [ReqGetCollections; ReqCollectionExists "notes";
       ReqCreateCollection "notes" (mkVectorParams 3072 COSINE);
       ReqCollectionExists "notes"].
Proof. vm_compute. done. Qed.

(** A recording is captured, transcribed and edited; the same bytes
    captured again leave the texts, other bytes empty them. *)
Example capture_twice :
  let b1 := [Byte.x01; Byte.x02] in
  let b2 := [Byte.x01; Byte.x03] in
  let ss0 := capture_audio sample_md5 b1 ∅ in
  let ss1 := <["note_text" := PyStr "buy milk"]>
               (<["note_audio_text" := PyStr "by milk"]> ss0) in
  capture_audio sample_md5 b1 ss1 !! "note_text" = Some (PyStr "buy milk")
  ∧ capture_audio sample_md5 b1 ss1 !! "note_audio_text" = Some (PyStr "by milk")
  ∧ capture_audio sample_md5 b2 ss1 !! "note_text" = Some (PyStr "")
  ∧ capture_audio sample_md5 b2 ss1 !! "note_audio_text" = Some (PyStr "")
  ∧ capture_audio sample_md5 b2 ss1 !! "note_audio_bytes_md5"
    = Some (PyStr (sample_md5 b2)).
Proof. vm_compute. done. Qed.

(** A whole run: record, transcribe, save, and list in the same run. *)
Example record_and_save :
  let i := mkInputs false "" (Some [Byte.x01]) true None true "" true in
  (sample_main i fresh_world).1 = Ret [mkNoteResult "buy milk" None]
  ∧ invocations (log (sample_main i fresh_world).2) = [OpAddNote; OpListNotes]
  ∧ session_state (sample_main i fresh_world).2 !! "note_text" = Some (PyStr "").
Proof. vm_compute. done. Qed.

Lemma answered_nil n w : outages w = [] → answered n w.
Proof. intros H. unfold answered. rewrite H, take_nil. apply not_elem_of_nil. Qed.

(** The search for "grocery" over the two sample notes goes through. *)
Lemma sample_search_succeeds :
  search_succeeds sample_embedding sample_similarity "grocery" two_notes_world.
Proof.
  split_and!.
  - vm_compute. eauto.
  - apply answered_nil. vm_compute. reflexivity.
  - vm_compute. discriminate.
  - eexists. split; [vm_compute; reflexivity|]. split; [vm_compute; reflexivity|].
    apply hits_texted. vm_compute. eauto.
Defined.

(** C5 on a concrete input: a search for "grocery" over the two sample
    notes asks for the embedding and for the search, and returns both notes,
    the one of the higher score first. *)
Lemma list_notes_with_query_witness :
  "grocery" ≠ ""
  ∧ ∃ w', sample_list (Some "grocery") two_notes_world
          = (Ret [mkNoteResult "call mom today" (Some (inject_Z 98));
                  mkNoteResult "buy milk" (Some (inject_Z 56))], w')
          ∧ requests (log w')
            = requests (log two_notes_world)
              ++ [ReqEmbeddings ["grocery"] EMBEDDING_MODEL EMBEDDING_DIM;
                  ReqSearch QDRANT_COLLECTION_NAME
                    (embedding_of sample_embedding "grocery") 10].
Proof.
  assert (Hq : "grocery" ≠ "") by discriminate.
  split; [exact Hq|].
  destruct (list_notes_with_query sample_embedding sample_similarity
              "grocery" two_notes_world Hq)
    as [(rs & w' & new & Hrun & _ & _ & _ & _ & Hreq & _ & _ & _ & Hhits & _)
       |[Hkey _]].
  - destruct (Hhits sample_search_succeeds) as (-> & col & Hcol & _ & Hrs & _).
    vm_compute in Hcol. injection Hcol as <-.
    vm_compute in Hrs. injection Hrs as <-.
    exists w'. split; [exact Hrun|]. rewrite Hreq. reflexivity.
  - vm_compute in Hkey. discriminate Hkey.
Defined.

(** C7 on a concrete input: the first note added to the freshly created
    collection. *)
Lemma add_note_adds_one_witness :
  ∃ w', sample_add "buy milk" booted_world = (Ret true, w')
        ∧ point_count w' = point_count booted_world + 1.
Proof.
  assert (Hcol : qdrant booted_world !! QDRANT_COLLECTION_NAME = Some fresh_collection)
    by (vm_compute; reflexivity).
  assert (Hok : (sample_add "buy milk" booted_world).1 = Ret true)
    by (vm_compute; reflexivity).
  destruct (sample_add "buy milk" booted_world) as [o w'] eqn:Hrun.
  cbn [fst] in Hok. subst o. exists w'. split; [reflexivity|].
  destruct (add_note_adds_one sample_embedding "buy milk" booted_world w' fresh_collection
              Hcol ids_sequential_empty Hrun)
    as (col' & _ & _ & _ & Hcount & _).
  exact Hcount.
Defined.

(** C9 on a concrete input: the embedding of a text by the sample
    provider, which keeps the contract. *)
Lemma get_embedding_dimension_witness :
  provider_contract sample_embedding
  ∧ ∃ v, (get_embedding sample_embedding "buy milk" fresh_world).1 = Ret v
         ∧ Z.of_nat (length v) = 3072.
Proof.
  split; [exact sample_contract|].
  destruct (get_embedding_dimension sample_embedding "buy milk" fresh_world sample_contract)
    as (_ & Hret & _).
  apply Hret; vm_compute; reflexivity.
Defined.

(** C7 as stated fails: in a collection whose only point has id 2, count + 1
    is 2, so a successful [add_note_to_db] replaces that point and the
    exact count stays 1. *)
Lemma add_note_overwrites_on_gap :
  (sample_add "buy milk" gap_world).1 = Ret true
  ∧ point_count gap_world = 1
  ∧ point_count (sample_add "buy milk" gap_world).2 = 1
  ∧ (pt_payload <$> (col_points <$> qdrant (sample_add "buy milk" gap_world).2
                       !! QDRANT_COLLECTION_NAME) ≫= (.!! 2))
    = Some {["text" := "buy milk"]}.
Proof. vm_compute. done. Qed.

(** ** Further properties of the script *)

Section Extras.
Variable md5 : list Byte.byte → string.
Variable embedding_provider : list string → string → Z → list (list Q).
Variable transcription_provider : list Byte.byte → string → string.
Variable similarity : Distance → list Q → list Q → Q.

Local Abbreviation add_note := (add_note_to_db embedding_provider).
Local Abbreviation list_notes := (list_notes_from_db embedding_provider similarity).
Local Abbreviation the_main :=
  (main md5 embedding_provider transcription_provider similarity).
Local Abbreviation the_add_tab :=
  (add_tab md5 embedding_provider transcription_provider).
Local Abbreviation the_run :=
  (run md5 embedding_provider transcription_provider similarity).
Local Abbreviation the_runs :=
  (runs md5 embedding_provider transcription_provider similarity).

(** *** The memoized store client *)

(** X1: [get_qdrant_client] always returns, and what it returns is then
    memoized: a second call returns the same value, a failed connection
    included, and leaves the world as it is.  A call sends the connection
    check when nothing is memoized and nothing otherwise, and it changes
    neither the store nor the session. *)
Theorem get_qdrant_client_memoizes w :
  ∃ c w1,
    get_qdrant_client w = (Ret c, w1)
    ∧ client_cache w1 = Some c
    ∧ get_qdrant_client w1 = (Ret c, w1)
    ∧ requests (log w1) = requests (log w) ++ connect_requests w
    ∧ qdrant w1 = qdrant w
    ∧ session_state w1 = session_state w
    ∧ (∀ c0, client_cache w = Some c0 → c = c0 ∧ w1 = w).
Proof.
  exists (client_of w), (connected w).
  assert (Hc : client_cache (connected w) = Some (client_of w)) by apply connected_cache.
  split_and!.
  - apply get_qdrant_client_spec.
  - done.
  - rewrite get_qdrant_client_spec.
    assert (H1 : client_of (connected w) = client_of w)
      by (unfold client_of at 1; by rewrite Hc).
    assert (H2 : connected (connected w) = connected w)
      by (unfold connected at 1; by rewrite Hc).
    by rewrite H1, H2.
  - apply connected_requests.
  - apply connected_qdrant.
  - apply connected_session.
  - intros c0 H0. unfold client_of, connected. by rewrite H0.
Qed.

(** *** The OpenAI client and the transcription *)

(** X2: [get_openai_client] hands out a client only with a key that is not
    empty: the secret [OPENAI_API_KEY] when there is a non-empty one,
    whatever the session holds, and the session's key otherwise.  With
    neither it stops the script.  It changes nothing. *)
Theorem get_openai_client_key w :
  (∃ c, get_openai_client w = (Ret c, w)
        ∧ truthy (oa_api_key c) = true
        ∧ (∀ s, secrets w !! "OPENAI_API_KEY" = Some s → s ≠ "" →
             oa_api_key c = PyStr s)
        ∧ ((secrets w !! "OPENAI_API_KEY" = None ∨ secrets w !! "OPENAI_API_KEY" = Some "") →
             oa_api_key c = py_get (session_state w) "openai_api_key"))
  ∨ (get_openai_client w = (Halt CtlStop, w)
     ∧ (secrets w !! "OPENAI_API_KEY" = None ∨ secrets w !! "OPENAI_API_KEY" = Some "")
     ∧ truthy (py_get (session_state w) "openai_api_key") = false).
Proof.
  rewrite get_openai_client_spec. unfold openai_key, py_or.
  destruct (secrets w !! "OPENAI_API_KEY") as [s|] eqn:Hs.
  - destruct (String.eqb s "") eqn:Hempty.
    + apply String.eqb_eq in Hempty as ->. cbn.
      destruct (truthy (py_get (session_state w) "openai_api_key")) eqn:Hk.
      * left. eexists. split_and!; [done|done| |done]. by intros s [= <-] Hne.
      * right. split_and!; auto.
    + left. unfold str_truthy. rewrite Hempty. cbn. rewrite Hempty. cbn.
      eexists. split_and!; [done|by cbn; rewrite Hempty|by intros s' [= <-] _|].
      apply String.eqb_neq in Hempty. intros [?|[= ->]]; done.
  - destruct (truthy (py_get (session_state w) "openai_api_key")) eqn:Hk.
    + left. eexists. split_and!; [done|done|done|done].
    + right. split_and!; auto.
Qed.

Lemma transcribe_audio_spec audio w :
  transcribe_audio transcription_provider audio w =
    if truthy (openai_key w)
    then (if outage_next w then Raise ConnectionFailed
          else Ret (transcription_provider audio AUDIO_TRANSCRIBE_MODEL),
          sent (ReqTranscription audio AUDIO_TRANSCRIBE_MODEL "verbose_json") w)
    else (Halt CtlStop, w).
Proof.
  unfold transcribe_audio. unfold bind at 1. rewrite get_openai_client_spec.
  destruct (truthy (openai_key w)); [|done].
  unfold OpenAI.transcriptions_create. unfold bind. rewrite send_spec.
  by destruct (outage_next w).
Qed.

(** X3: with a key configured, [transcribe_audio] makes one call of the
    client's transcription method, for the model whisper-1 in the verbose
    format, and returns the text of the answer; when the call fails, the
    exception reaches the caller of [transcribe_audio], which has no handler
    of its own.  The call is the only one the function makes, and it changes
    neither the store, the session nor the memo.  What the client library
    does within the call, a repeated request included, is not part of the
    statement. *)
Theorem transcribe_audio_calls_client audio w :
  keyed w →
  ∃ o w',
    transcribe_audio transcription_provider audio w = (o, w')
    ∧ requests (log w') = requests (log w) ++ [ReqTranscription audio "whisper-1" "verbose_json"]
    ∧ (outage_next w = false → o = Ret (transcription_provider audio "whisper-1"))
    ∧ (outage_next w = true → o = Raise ConnectionFailed)
    ∧ qdrant w' = qdrant w
    ∧ session_state w' = session_state w
    ∧ client_cache w' = client_cache w.
Proof.
  intros Hk. rewrite transcribe_audio_spec. unfold keyed in Hk. rewrite Hk.
  eexists _, _. split; [done|]. rewrite sent_requests.
  destruct (outage_next w); split_and!; done.
Qed.

Lemma sent_invocations r w : invocations (log (sent r w)) = invocations (log w).
Proof. unfold sent. cbn. by rewrite invocations_app, app_nil_r. Qed.

Lemma capture_keyed mp3 w :
  openai_key (set_session_state (capture_audio md5 mp3) w) = openai_key w.
Proof.
  unfold openai_key, py_get. cbn.
  rewrite (capture_audio_other md5 mp3 (session_state w)). reflexivity.
Qed.

(** X4: a transcription that fails ends the run by its exception.  The
    transcript in the session is not written, [add_note_to_db] and
    [list_notes_from_db] are not entered although their buttons may be
    pressed, and the store is not changed; the session holds what the
    capture of the audio left. *)
Theorem failed_transcription_ends_run i w w1 mp3 :
  bootstrap i w = (Ret tt, w1) →
  in_recording i = Some mp3 →
  in_transcribe i = true →
  outage_next w1 = true →
  ∃ w2,
    the_main i w = (Raise ConnectionFailed, w2)
    ∧ invocations (log w2) = invocations (log w1)
    ∧ requests (log w2)
      = requests (log w1) ++ [ReqTranscription mp3 "whisper-1" "verbose_json"]
    ∧ session_state w2 = capture_audio md5 mp3 (session_state w1)
    ∧ qdrant w2 = qdrant w1.
Proof.
  intros Hboot Hrec Htr Hout.
  pose proof (bootstrap_keyed i w w1 Hboot) as Hk.
  unfold main. unfold bind at 1. rewrite Hboot.
  unfold bind at 1. unfold add_tab. rewrite Hrec, Htr.
  unfold bind at 1. unfold modify at 1.
  set (w2 := set_session_state (capture_audio md5 mp3) w1).
  unfold bind at 1. unfold bind at 1. rewrite transcribe_audio_spec.
  unfold keyed in Hk. subst w2. rewrite capture_keyed, Hk.
  change (outage_next (set_session_state ?f w1)) with (outage_next w1). rewrite Hout.
  eexists. split; [done|]. rewrite sent_requests, sent_invocations. by split_and!.
Qed.

(** *** The start of a run *)

(** The store settings come from [st.secrets] first; the OpenAI key of
    [env] is the one of [.env]. *)
Lemma env_openai_key w : env w !! "OPENAI_API_KEY" = dotenv w !! "OPENAI_API_KEY".
Proof.
  unfold env, override.
  destruct (secrets w !! "QDRANT_API_KEY"), (secrets w !! "QDRANT_URL");
    by rewrite ?lookup_insert_ne.
Qed.

(** [api_key_gate], case by case. *)
Lemma api_key_gate_cases i w :
  api_key_gate i w =
    if truthy (py_get (session_state w) "openai_api_key") then (Ret tt, w)
    else match dotenv w !! "OPENAI_API_KEY" with
         | Some k =>
             (if str_truthy k then Ret tt else Halt CtlStop,
              set_session_state (insert "openai_api_key" (PyStr k)) w)
         | None =>
             (if str_truthy (in_api_key i) then Halt CtlRerun else Halt CtlStop,
              set_session_state (insert "openai_api_key" (PyStr (in_api_key i))) w)
         end.
Proof.
  unfold api_key_gate. unfold bind at 1. unfold get_world at 1.
  destruct (truthy (py_get (session_state w) "openai_api_key")) eqn:Hkey; cbn [negb].
  - unfold bind at 1. unfold ret at 1. unfold bind, get_world. by rewrite Hkey.
  - rewrite env_openai_key. destruct (dotenv w !! "OPENAI_API_KEY") as [k|].
    + unfold bind, session_set, modify, get_world.
      unfold py_get. cbn [session_state set_session_state]. rewrite lookup_insert_eq.
      cbn. unfold str_truthy. by destruct (String.eqb k "").
    + unfold bind at 1. unfold bind at 1. unfold session_set, modify.
      destruct (str_truthy (in_api_key i)) eqn:Hin; [done|].
      unfold ret at 1. unfold bind, get_world.
      unfold py_get. cbn [session_state set_session_state]. rewrite lookup_insert_eq.
      cbn. unfold str_truthy in Hin. by rewrite Hin.
Qed.

(** X5: the key gate lets the script go on only with a key in the session
    that is not empty, and it never raises.  A session that holds a key
    passes unchanged.  Otherwise the key of [.env] is taken, the typed key
    being ignored, and only without one in [.env] the typed key, after
    which the script is rerun.  The gate writes nothing but the session's
    key. *)
Theorem api_key_gate_guards i w :
  ∃ o w',
    api_key_gate i w = (o, w')
    ∧ same_but_session w w'
    ∧ (∀ k, k ≠ "openai_api_key" → session_state w' !! k = session_state w !! k)
    ∧ (∀ e, o ≠ Raise e)
    ∧ (o = Ret tt → truthy (py_get (session_state w') "openai_api_key") = true)
    ∧ (truthy (py_get (session_state w) "openai_api_key") = true → o = Ret tt ∧ w' = w)
    ∧ (truthy (py_get (session_state w) "openai_api_key") = false →
         (∀ k, dotenv w !! "OPENAI_API_KEY" = Some k →
            session_state w' !! "openai_api_key" = Some (PyStr k)
            ∧ (o = Ret tt ↔ k ≠ ""))
         ∧ (dotenv w !! "OPENAI_API_KEY" = None →
              session_state w' !! "openai_api_key" = Some (PyStr (in_api_key i))
              ∧ (in_api_key i ≠ "" → o = Halt CtlRerun)
              ∧ (in_api_key i = "" → o = Halt CtlStop))).
Proof.
  rewrite api_key_gate_cases.
  destruct (truthy (py_get (session_state w) "openai_api_key")) eqn:Hkey.
  { exists (Ret tt), w. split_and!; first [done | apply same_but_session_refl]. }
  destruct (dotenv w !! "OPENAI_API_KEY") as [k|] eqn:Hk.
  - eexists _, _. split; [done|]. split_and!.
    + apply same_but_session_set.
    + intros k' Hne. cbn. by rewrite lookup_insert_ne.
    + intros e. by destruct (str_truthy k).
    + unfold str_truthy. destruct (String.eqb k "") eqn:He; [done|]. intros _.
      unfold py_get. cbn. rewrite lookup_insert_eq. cbn. by rewrite He.
    + done.
    + intros _. split; [|done]. intros k' [= <-]. cbn. rewrite lookup_insert_eq.
      split; [done|]. unfold str_truthy.
      destruct (String.eqb k "") eqn:He; cbn.
      * apply String.eqb_eq in He. split; [done|]. by intros [].
      * apply String.eqb_neq in He. done.
  - eexists _, _. split; [done|]. split_and!.
    + apply same_but_session_set.
    + intros k' Hne. cbn. by rewrite lookup_insert_ne.
    + intros e. by destruct (str_truthy (in_api_key i)).
    + by destruct (str_truthy (in_api_key i)).
    + done.
    + intros _. split; [done|]. intros _. cbn. rewrite lookup_insert_eq.
      split; [done|]. unfold str_truthy.
      destruct (String.eqb (in_api_key i) "") eqn:He; cbn.
      * apply String.eqb_eq in He. by split.
      * apply String.eqb_neq in He. by split.
Qed.

(** X6: an OpenAI key that is only in [st.secrets] does not open the gate.
    With no key in the session, none in [.env] and none typed, the run
    stops at the gate, before anything is requested, although
    [get_openai_client] would accept the secret. *)
Theorem secret_key_does_not_open_gate i w :
  in_clear_cache i = false →
  truthy (py_get (session_state w) "openai_api_key") = false →
  dotenv w !! "OPENAI_API_KEY" = None →
  in_api_key i = "" →
  ∃ w',
    the_main i w = (Halt CtlStop, w')
    ∧ log w' = log w
    ∧ qdrant w' = qdrant w
    ∧ client_cache w' = client_cache w
    ∧ (∀ s, secrets w !! "OPENAI_API_KEY" = Some s → s ≠ "" → keyed w').
Proof.
  intros Hclear Hkey Henv Hin.
  assert (Hgate : api_key_gate i w
            = (Halt CtlStop, set_session_state (insert "openai_api_key" (PyStr "")) w)).
  { rewrite api_key_gate_cases, Hkey, Henv, Hin. done. }
  eexists. split.
  - apply main_halts. unfold bootstrap. rewrite Hclear.
    unfold bind at 1. unfold ret at 1. unfold bind at 1. by rewrite Hgate.
  - split_and!; try done. intros s Hs Hne. unfold keyed, openai_key, py_or.
    cbn [secrets set_session_state]. rewrite Hs. unfold str_truthy.
    apply String.eqb_neq in Hne. rewrite Hne. cbn. by rewrite Hne.
Qed.

(** The session after the four defaults were set. *)
Definition init_keys (ss : gmap string PyVal) : gmap string PyVal :=
  session_default "note_audio_text" (PyStr "")
    (session_default "note_text" (PyStr "")
       (session_default "note_audio_bytes" PyNone
          (session_default "note_audio_bytes_md5" PyNone ss))).

Lemma init_session_world w :
  init_session w = (Ret tt, set_session_state init_keys w).
Proof. done. Qed.

Lemma session_default_keeps k v (ss : gmap string PyVal) k' v' :
  ss !! k' = Some v' → session_default k v ss !! k' = Some v'.
Proof.
  intros H. unfold session_default. destruct (ss !! k) eqn:Hk; [done|].
  rewrite lookup_insert_ne; [done|]. intros ->. congruence.
Qed.

Lemma session_default_present k v (ss : gmap string PyVal) :
  is_Some (session_default k v ss !! k).
Proof.
  unfold session_default. destruct (ss !! k) eqn:Hk; [by rewrite Hk|].
  rewrite lookup_insert_eq. by eexists.
Qed.

Lemma session_default_new k v (ss : gmap string PyVal) :
  ss !! k = None → session_default k v ss !! k = Some v.
Proof. intros H. unfold session_default. rewrite H. apply lookup_insert_eq. Qed.

Lemma session_default_other k v (ss : gmap string PyVal) k' :
  k ≠ k' → session_default k v ss !! k' = ss !! k'.
Proof.
  intros H. unfold session_default. destruct (ss !! k); [done|].
  by rewrite lookup_insert_ne.
Qed.

Lemma session_default_id k v (ss : gmap string PyVal) :
  is_Some (ss !! k) → session_default k v ss = ss.
Proof. intros [x Hx]. unfold session_default. by rewrite Hx. Qed.

(** The keys of the draft. *)
Definition draft_keys : list string :=
  ["note_audio_bytes_md5"; "note_audio_bytes"; "note_text"; "note_audio_text"].

Lemma init_keys_keeps (ss : gmap string PyVal) k v :
  ss !! k = Some v → init_keys ss !! k = Some v.
Proof. intros H. unfold init_keys. by do 4 apply session_default_keeps. Qed.

Lemma init_keys_present (ss : gmap string PyVal) k :
  k ∈ draft_keys → is_Some (init_keys ss !! k).
Proof.
  unfold draft_keys, init_keys. rewrite !elem_of_cons, elem_of_nil.
  intros [->|[->|[->|[->|[]]]]].
  - destruct (session_default_present "note_audio_bytes_md5" PyNone ss) as [v Hv].
    exists v. by do 3 apply session_default_keeps.
  - destruct (session_default_present "note_audio_bytes" PyNone
                (session_default "note_audio_bytes_md5" PyNone ss)) as [v Hv].
    exists v. by do 2 apply session_default_keeps.
  - destruct (session_default_present "note_text" (PyStr "")
                (session_default "note_audio_bytes" PyNone
                   (session_default "note_audio_bytes_md5" PyNone ss))) as [v Hv].
    exists v. by apply session_default_keeps.
  - apply session_default_present.
Qed.

(** X7: the initialisation of the session never overwrites a value: a
    draft that is there survives the rerun of the script.  It only adds
    the four draft keys that are missing, the two texts as empty strings
    and the audio and its MD5 as [None], so a second initialisation
    changes nothing; and it leaves every other key alone. *)
Theorem init_session_keeps_draft w :
  ∃ w',
    init_session w = (Ret tt, w')
    ∧ same_but_session w w'
    ∧ (∀ k v, session_state w !! k = Some v → session_state w' !! k = Some v)
    ∧ (∀ k, k ∈ draft_keys → is_Some (session_state w' !! k))
    ∧ (∀ k, k ∉ draft_keys → session_state w' !! k = session_state w !! k)
    ∧ (session_state w !! "note_text" = None →
         session_state w' !! "note_text" = Some (PyStr ""))
    ∧ (session_state w !! "note_audio_text" = None →
         session_state w' !! "note_audio_text" = Some (PyStr ""))
    ∧ (session_state w !! "note_audio_bytes_md5" = None →
         session_state w' !! "note_audio_bytes_md5" = Some PyNone)
    ∧ (session_state w !! "note_audio_bytes" = None →
         session_state w' !! "note_audio_bytes" = Some PyNone)
    ∧ session_state (init_session w').2 = session_state w'.
Proof.
  exists (set_session_state init_keys w). rewrite !init_session_world.
  cbn [snd session_state set_session_state].
  split_and!; try done.
  - intros k v. apply init_keys_keeps.
  - intros k. apply init_keys_present.
  - intros k Hk. unfold draft_keys in Hk. rewrite !elem_of_cons, elem_of_nil in Hk.
    unfold init_keys. rewrite !session_default_other; naive_solver.
  - intros H. unfold init_keys. rewrite session_default_other by done.
    rewrite session_default_new; [done|]. by rewrite !session_default_other.
  - intros H. unfold init_keys. rewrite session_default_new; [done|].
    by rewrite !session_default_other.
  - intros H. unfold init_keys. rewrite !(session_default_other _ _ _ "note_audio_bytes_md5") by done.
    by apply session_default_new.
  - intros H. unfold init_keys. rewrite !(session_default_other _ _ _ "note_audio_bytes") by done.
    rewrite session_default_new; [done|]. by rewrite session_default_other.
  - unfold init_keys at 1.
    rewrite (session_default_id "note_audio_bytes_md5")
      by (apply init_keys_present; unfold draft_keys; set_solver).
    rewrite (session_default_id "note_audio_bytes")
      by (apply init_keys_present; unfold draft_keys; set_solver).
    rewrite (session_default_id "note_text")
      by (apply init_keys_present; unfold draft_keys; set_solver).
    rewrite (session_default_id "note_audio_text")
      by (apply init_keys_present; unfold draft_keys; set_solver).
    done.
Qed.

Lemma bootstrap_returns i w w' :
  bootstrap i w = (Ret tt, w') →
  in_clear_cache i = false
  ∧ ∃ wg, api_key_gate i w = (Ret tt, wg)
          ∧ assure_db_collection_exists (set_session_state init_keys wg) = (Ret tt, w').
Proof.
  intros Hrun. unfold bootstrap in Hrun.
  destruct (in_clear_cache i); [done|]. split; [done|].
  unfold bind at 1 in Hrun. unfold ret at 1 in Hrun. unfold bind at 1 in Hrun.
  destruct (api_key_gate i w) as [[[]|e|c] wg]; [|done..].
  exists wg. split; [done|]. unfold bind at 1 in Hrun.
  by rewrite init_session_world in Hrun.
Qed.

(** X8: a bootstrap that returns has set the stage for the tabs: a key is
    in the session, a store client is memoized, the notes collection
    exists and the four draft keys are in the session.  The collection is
    created only when it was missing, then empty with size 3072 and the
    cosine metric; a collection that was there and all other collections
    are left as they were. *)
Theorem bootstrap_establishes i w w' :
  bootstrap i w = (Ret tt, w') →
  truthy (py_get (session_state w') "openai_api_key") = true
  ∧ (∃ c, client_cache w' = Some (Some c))
  ∧ is_Some (qdrant w' !! QDRANT_COLLECTION_NAME)
  ∧ (∀ k, k ∈ draft_keys → is_Some (session_state w' !! k))
  ∧ (∀ name, name ≠ QDRANT_COLLECTION_NAME → qdrant w' !! name = qdrant w !! name)
  ∧ (∀ col, qdrant w !! QDRANT_COLLECTION_NAME = Some col → qdrant w' = qdrant w)
  ∧ (qdrant w !! QDRANT_COLLECTION_NAME = None →
       qdrant w' !! QDRANT_COLLECTION_NAME = Some fresh_collection).
Proof.
  intros Hrun. apply bootstrap_returns in Hrun as (Hclear & wg & Hgate & Hrun).
  destruct (api_key_gate_spec i w) as (o & wg' & Hg & Hsame & Hcase).
  rewrite Hgate in Hg. injection Hg as <- <-.
  destruct Hcase as [[_ Hkey]|[c [=]]].
  destruct Hsame as (Hq & _).
  set (wi := set_session_state init_keys wg) in *.
  assert (Hqi : qdrant wi = qdrant w) by done.
  assert (Hsi : session_state wi = init_keys (session_state wg)) by done.
  assert (Hki : truthy (py_get (session_state wi) "openai_api_key") = true).
  { rewrite Hsi. unfold py_get in *.
    destruct (session_state wg !! "openai_api_key") as [v|] eqn:Hv; [|done].
    by rewrite (init_keys_keeps _ _ _ Hv). }
  assert (Hdraft : ∀ k, k ∈ draft_keys → is_Some (session_state wi !! k)).
  { intros k Hk. rewrite Hsi. by apply init_keys_present. }
  rewrite assure_spec in Hrun. cbv zeta in Hrun.
  destruct (client_of wi) as [c|] eqn:Hc; [|done].
  destruct (outage_next (connected wi)); [done|].
  rewrite Hqi in Hrun.
  destruct (qdrant w !! QDRANT_COLLECTION_NAME) as [col|] eqn:Hcol.
  - injection Hrun as <-.
    assert (Hs : session_state (sent (ReqCollectionExists QDRANT_COLLECTION_NAME) (connected wi))
                 = session_state wi) by apply connected_session.
    assert (Hq' : qdrant (sent (ReqCollectionExists QDRANT_COLLECTION_NAME) (connected wi))
                  = qdrant w) by (by rewrite sent_qdrant, connected_qdrant).
    rewrite Hs, Hq'. split_and!; try done.
    exists c. change (client_cache (sent ?r ?w0)) with (client_cache w0).
    by rewrite connected_cache, Hc.
  - destruct (outage_next _); [done|]. injection Hrun as <-.
    cbn [qdrant session_state set_qdrant client_cache].
    change (session_state (sent ?r1 (sent ?r2 ?w0))) with (session_state w0).
    change (qdrant (sent ?r1 (sent ?r2 ?w0))) with (qdrant w0).
    change (client_cache (sent ?r1 (sent ?r2 ?w0))) with (client_cache w0).
    rewrite connected_session, connected_qdrant, connected_cache, Hc, Hqi.
    split_and!; try done; try (by exists c).
    all: first [ rewrite lookup_insert_eq; by eauto
               | intros name Hne; by rewrite lookup_insert_ne
               | intros _; by rewrite lookup_insert_eq ].
Qed.

(** *** Invariants of computations *)

(** A computation keeps [I]: from a world in [I] it ends in a world in
    [I], however it ends. *)
Definition keeps (I : World → Prop) {A} (m : M A) : Prop :=
  ∀ w, I w → I (m w).2.

Section Keeps.
Variable I : World → Prop.

Lemma keeps_ret {A} (a : A) : keeps I (ret a).
Proof. by intros w. Qed.

Lemma keeps_raise {A} e : keeps I (raise (A := A) e).
Proof. by intros w. Qed.

Lemma keeps_halt {A} c : keeps I (halt (A := A) c).
Proof. by intros w. Qed.

Lemma keeps_get_world : keeps I get_world.
Proof. by intros w. Qed.

Lemma keeps_bind {A B} (m : M A) (k : A → M B) :
  keeps I m → (∀ a, keeps I (k a)) → keeps I (bind m k).
Proof.
  intros Hm Hk w Hw. unfold bind. specialize (Hm w Hw).
  destruct (m w) as [[a|e|c] w']; cbn in *; [by apply Hk|done..].
Qed.

Lemma keeps_try {A} (m : M A) (h : Exn → M A) :
  keeps I m → (∀ e, keeps I (h e)) → keeps I (try_except m h).
Proof.
  intros Hm Hh w Hw. unfold try_except. specialize (Hm w Hw).
  destruct (m w) as [[a|e|c] w']; cbn in *; [done|by apply Hh|done].
Qed.

Lemma keeps_for_each {A B} (f : A → M B) l :
  (∀ x, keeps I (f x)) → keeps I (for_each f l).
Proof.
  intros Hf. induction l as [|x l IH]; [apply keeps_ret|].
  cbn [for_each]. apply keeps_bind; [done|]. intros y.
  apply keeps_bind; [done|]. intros ys. apply keeps_ret.
Qed.

Lemma keeps_modify (f : World → World) :
  (∀ w, I w → I (f w)) → keeps I (modify f).
Proof. intros Hf w Hw. by apply Hf. Qed.

Lemma keeps_send r : (∀ w, I w → I (sent r w)) → keeps I (send r).
Proof. intros Hs w Hw. rewrite send_spec. by apply Hs. Qed.

Lemma keeps_get_qdrant_client :
  (∀ w, I w → I (connected w)) → keeps I get_qdrant_client.
Proof. intros Hc w Hw. rewrite get_qdrant_client_spec. by apply Hc. Qed.

Lemma keeps_get_openai_client : keeps I get_openai_client.
Proof. intros w Hw. rewrite get_openai_client_spec. destruct (truthy _); exact Hw. Qed.

Lemma keeps_lookup_collection name : keeps I (Qdrant.lookup_collection name).
Proof.
  unfold Qdrant.lookup_collection. apply keeps_bind; [apply keeps_get_world|].
  intros w. destruct (qdrant w !! name); [apply keeps_ret|apply keeps_raise].
Qed.

Lemma keeps_session_item k : keeps I (session_item k).
Proof.
  unfold session_item. apply keeps_bind; [apply keeps_get_world|].
  intros w. destruct (session_state w !! k); [apply keeps_ret|apply keeps_raise].
Qed.

(** What was read from the session may be used in what follows. *)
Lemma keeps_bind_item {B} k (f : PyVal → M B) :
  (∀ v, (∃ w, I w ∧ session_state w !! k = Some v) → keeps I (f v)) →
  keeps I (bind (session_item k) f).
Proof.
  intros Hf w Hw. unfold session_item, bind, get_world, ret, raise. cbn beta iota.
  destruct (session_state w !! k) as [v|] eqn:Hv; [|exact Hw].
  apply Hf; [|exact Hw]. by exists w.
Qed.
End Keeps.

(** One rule per step of the script; [side] settles what a rule asks of
    the invariant. *)
Ltac keeps_step side :=
  lazymatch goal with
  | |- keeps _ (ret _) => apply keeps_ret
  | |- keeps _ (raise _) => apply keeps_raise
  | |- keeps _ (halt _) => apply keeps_halt
  | |- keeps _ st_stop => apply keeps_halt
  | |- keeps _ st_rerun => apply keeps_halt
  | |- keeps _ get_world => apply keeps_get_world
  | |- keeps _ (send _) => apply keeps_send; side
  | |- keeps _ get_openai_client => apply keeps_get_openai_client
  | |- keeps _ get_qdrant_client => apply keeps_get_qdrant_client; side
  | |- keeps _ (Qdrant.lookup_collection _) => apply keeps_lookup_collection
  | |- keeps _ (session_item _) => apply keeps_session_item
  | |- keeps _ (modify _) => apply keeps_modify; side
  | |- keeps _ (for_each _ _) => apply keeps_for_each; intros ?
  | |- keeps _ (try_except _ _) => apply keeps_try; [|intros ?]
  | |- keeps _ (bind _ _) => apply keeps_bind; [|intros ?]
  | |- keeps _ (match ?x with _ => _ end) => destruct x
  end.

(** *** What listing and adding leave alone *)

(** Requests that do not write to the store. *)
Definition reads (r : Request) : Prop :=
  match r with
  | ReqUpsert _ _ | ReqCreateCollection _ _ => False
  | _ => True
  end.

(** The world differs from [w0] in the log, the oracle and the memo only,
    and what was requested since [w0] does not write to the store. *)
Definition only_read (w0 w : World) : Prop :=
  qdrant w = qdrant w0
  ∧ session_state w = session_state w0
  ∧ secrets w = secrets w0
  ∧ dotenv w = dotenv w0
  ∧ ∃ new, requests (log w) = requests (log w0) ++ new ∧ Forall reads new.

Lemma only_read_refl w : only_read w w.
Proof. repeat split. exists []. by rewrite app_nil_r. Qed.

Lemma only_read_sent w0 w r : reads r → only_read w0 w → only_read w0 (sent r w).
Proof.
  intros Hr (Hq & Hs & Hse & Hd & new & Hnew & Hall). repeat split; try done.
  exists (new ++ [r]). rewrite sent_requests, Hnew, <-app_assoc. split; [done|].
  apply Forall_app. split; [done|]. by constructor.
Qed.

Lemma only_read_connected w0 w : only_read w0 w → only_read w0 (connected w).
Proof.
  intros H. unfold connected. destruct (client_cache w); [done|].
  destruct (only_read_sent w0 w ReqGetCollections I H) as (Hq & Hs & Hse & Hd & Hl).
  by repeat split.
Qed.

Lemma only_read_invoke w0 w op : only_read w0 w → only_read w0 (add_log (EvInvoke op) w).
Proof.
  intros (Hq & Hs & Hse & Hd & new & Hnew & Hall). repeat split; try done.
  exists new. cbn. by rewrite requests_app, app_nil_r.
Qed.

Ltac only_read_side :=
  first
    [ intros ? ?; apply only_read_sent; [exact I|assumption]
    | intros ? ?; apply only_read_connected; assumption
    | intros ? ?; apply only_read_invoke; assumption ].

(** X9: [list_notes_from_db] only reads.  Whatever the query and however
    it ends, the store and the session are as before, and what it
    requested holds no upsert and no creation of a collection. *)
Theorem list_notes_only_reads query w :
  qdrant (list_notes query w).2 = qdrant w
  ∧ session_state (list_notes query w).2 = session_state w
  ∧ invocations (log (list_notes query w).2) = invocations (log w) ++ [OpListNotes]
  ∧ ∃ new, requests (log (list_notes query w).2) = requests (log w) ++ new
           ∧ Forall reads new.
Proof.
  assert (Hkeeps : keeps (only_read w) (list_notes query)).
  { unfold list_notes_from_db, list_notes_body, get_embedding, OpenAI.embeddings_create,
      Qdrant.scroll, Qdrant.search, payload_text.
    repeat keeps_step only_read_side. }
  destruct (Hkeeps w (only_read_refl w)) as (Hq & Hs & _ & _ & Hnew).
  split_and!; try done.
  assert (Hinv : keeps (λ w', invocations (log w') = invocations (log w) ++ [OpListNotes])
                   (try_except (list_notes_body embedding_provider similarity query)
                      (λ _, ret []))).
  { unfold list_notes_body, get_embedding, OpenAI.embeddings_create,
      Qdrant.scroll, Qdrant.search, payload_text.
    repeat keeps_step
      ltac:(intros w' Hw';
            rewrite ?sent_invocations, ?connected_invocations; exact Hw'). }
  apply Hinv. cbn. by rewrite invocations_app.
Qed.

Lemma add_note_session text w : session_state (add_note text w).2 = session_state w.
Proof.
  assert (Hkeeps : keeps (λ w', session_state w' = session_state w) (add_note text)).
  { unfold add_note_to_db, add_note_body, get_embedding, OpenAI.embeddings_create,
      Qdrant.count_points, Qdrant.upsert.
    repeat keeps_step
      ltac:(intros w' Hw'; first [by rewrite connected_session | exact Hw']). }
  by apply Hkeeps.
Qed.

(** X10: what [add_note_to_db] can change.  It never touches the session
    or a collection other than the notes collection, never creates that
    collection and never changes its schema; of its points it changes at
    most the one of id count + 1.  Unless it returns [True] the store is
    exactly as before. *)
Theorem add_note_changes_one_point text w :
  session_state (add_note text w).2 = session_state w
  ∧ (∀ name, name ≠ QDRANT_COLLECTION_NAME →
       qdrant (add_note text w).2 !! name = qdrant w !! name)
  ∧ (qdrant w !! QDRANT_COLLECTION_NAME = None →
       qdrant (add_note text w).2 = qdrant w ∧ (add_note text w).1 ≠ Ret true)
  ∧ (∀ col, qdrant w !! QDRANT_COLLECTION_NAME = Some col →
       ∃ col', qdrant (add_note text w).2 !! QDRANT_COLLECTION_NAME = Some col'
               ∧ col_config col' = col_config col
               ∧ ∀ i, i ≠ point_count w + 1 →
                      col_points col' !! i = col_points col !! i)
  ∧ ((add_note text w).1 ≠ Ret true → qdrant (add_note text w).2 = qdrant w).
Proof.
  split; [apply add_note_session|].
  assert (Helse := add_note_else_store embedding_provider text w).
  assert (Htrue := add_note_true_store embedding_provider text w).
  assert (Hcases : (add_note text w).1 = Ret true ∨ (add_note text w).1 ≠ Ret true).
  { destruct (add_note_outcome embedding_provider text w) as [H|[H|[H _]]];
      [by left|right; by rewrite H..]. }
  split_and!.
  - intros name Hne. destruct Hcases as [Hok|Hno].
    + rewrite (Htrue Hok). unfold with_note.
      destruct (qdrant w !! QDRANT_COLLECTION_NAME); [|done].
      by rewrite lookup_insert_ne.
    + by rewrite (Helse Hno).
  - intros Hnone. destruct Hcases as [Hok|Hno].
    + apply add_note_true_iff in Hok as (_ & _ & _ & _ & col & Hcol & _). congruence.
    + by rewrite (Helse Hno).
  - intros col Hcol. destruct Hcases as [Hok|Hno].
    + rewrite (Htrue Hok). unfold with_note. rewrite Hcol, lookup_insert_eq.
      eexists. split; [done|]. split; [done|]. intros i Hi. cbn.
      by rewrite lookup_insert_ne.
    + rewrite (Helse Hno). by exists col.
  - done.
Qed.

(** X11: in a collection of size 3072, as the bootstrap creates it, a
    provider that keeps its contract never makes [add_note_to_db] fail:
    with a store client, a key and three answered requests it returns
    [True] for every text. *)
Theorem add_note_succeeds_when_answered text w col :
  provider_contract embedding_provider →
  qdrant w !! QDRANT_COLLECTION_NAME = Some col →
  vp_size (col_config col) = EMBEDDING_DIM →
  is_Some (client_of w) →
  keyed w →
  answered 3 (connected w) →
  (add_note text w).1 = Ret true.
Proof.
  intros Hcontract Hcol Hsize Hclient Hkey Hans.
  apply add_note_true_iff. unfold add_succeeds.
  destruct (Hcontract text EMBEDDING_MODEL EMBEDDING_DIM) as (v & Hv & Hlen); [done|].
  split_and!; try done.
  - by rewrite Hv.
  - exists col. split; [done|]. unfold embedding_of. rewrite Hv. cbn.
    unfold Qdrant.fits. apply bool_decide_eq_true. congruence.
Qed.

(** *** What a listing shows *)

Lemma Forall2_in_l {A B} (P : A → B → Prop) l k x :
  Forall2 P l k → x ∈ l → ∃ y, y ∈ k ∧ P x y.
Proof.
  induction 1 as [|x' y' l k Hxy _ IH]; [by intros ?%elem_of_nil|].
  intros [->|Hin]%elem_of_cons.
  - exists y'. split; [by left|done].
  - destruct (IH Hin) as (y & Hy & HP). exists y. split; [by right|done].
Qed.

Lemma Forall2_in_r {A B} (P : A → B → Prop) l k y :
  Forall2 P l k → y ∈ k → ∃ x, x ∈ l ∧ P x y.
Proof.
  induction 1 as [|x' y' l k Hxy _ IH]; [by intros ?%elem_of_nil|].
  intros [->|Hin]%elem_of_cons.
  - exists x'. split; [by left|done].
  - destruct (IH Hin) as (x & Hx & HP). exists x. split; [by right|done].
Qed.

(** The points of a collection in the order of [scroll]. *)
Definition by_id (col : Collection) : list (Z * Point) :=
  merge_sort Qdrant.id_le (map_to_list (col_points col)).

Lemma by_id_elem_of col i p : (i, p) ∈ by_id col ↔ col_points col !! i = Some p.
Proof.
  unfold by_id. rewrite merge_sort_Permutation. apply elem_of_map_to_list.
Qed.

Lemma by_id_length col : length (by_id col) = size (col_points col).
Proof.
  unfold by_id. rewrite merge_sort_Permutation. apply length_map_to_list.
Qed.

Lemma scroll_page_by_id col :
  scroll_page col = map (λ ip, mkRecord ip.1 (pt_payload ip.2)) (take 10 (by_id col)).
Proof. done. Qed.

Lemma scroll_page_stored col r :
  r ∈ scroll_page col →
  ∃ p, col_points col !! rec_id r = Some p ∧ rec_payload r = pt_payload p.
Proof.
  rewrite scroll_page_by_id. intros ([i p] & -> & Hin)%list_elem_of_fmap.
  exists p. split; [|done]. apply by_id_elem_of. cbn.
  rewrite <-(take_drop 10 (by_id col)). apply elem_of_app. by left.
Qed.

Lemma scroll_page_length col :
  length (scroll_page col) = (size (col_points col) `min` 10)%nat.
Proof.
  rewrite scroll_page_by_id, length_map, length_take, by_id_length. lia.
Qed.

(** Every point has a text. *)
Definition all_texts (col : Collection) : Prop :=
  ∀ i p, col_points col !! i = Some p → is_Some (pt_payload p !! "text").

(** The store client is at hand and the next request is answered. *)
Definition store_answers (w : World) : Prop :=
  is_Some (client_of w) ∧ outage_next (connected w) = false.

Lemma listed_page w col :
  store_answers w → qdrant w !! QDRANT_COLLECTION_NAME = Some col →
  listed w = default [] (mapM unranked (scroll_page col)).
Proof.
  intros [[c Hc] Hout] Hcol. unfold listed. by rewrite Hc, Hcol, Hout.
Qed.

Lemma listed_all w col :
  store_answers w → qdrant w !! QDRANT_COLLECTION_NAME = Some col → all_texts col →
  Forall2 (λ r y, unranked r = Some y) (scroll_page col) (listed w).
Proof.
  intros Hans Hcol Hall. rewrite (listed_page w col Hans Hcol).
  destruct (mapM unranked (scroll_page col)) as [rs|] eqn:Hrs.
  - by apply mapM_Some_1.
  - apply mapM_None_1, Exists_exists in Hrs as (r & Hr & Hnone).
    apply scroll_page_stored in Hr as (p & Hp & Hpay).
    destruct (Hall _ _ Hp) as [t Ht]. unfold unranked in Hnone.
    rewrite Hpay, Ht in Hnone. done.
Qed.

(** The listing of a collection whose points all have a text. *)
Lemma list_notes_shows_stored_aux w col :
  store_answers w →
  qdrant w !! QDRANT_COLLECTION_NAME = Some col →
  all_texts col →
  ∃ rs,
    (list_notes None w).1 = Ret rs
    ∧ ∀ i p t, (size (col_points col) ≤ 10)%nat →
               col_points col !! i = Some p → pt_payload p !! "text" = Some t →
               mkNoteResult t None ∈ rs.
Proof.
  intros Hans Hcol Hall.
  destruct (list_notes_unranked embedding_provider similarity None w) as (w' & Hrun & _);
    [done|].
  exists (listed w). rewrite Hrun. split; [done|].
  pose proof (listed_all w col Hans Hcol Hall) as H2.
  intros i p t Hsmall Hp Ht.
  assert (Hin : mkRecord i (pt_payload p) ∈ scroll_page col).
  { rewrite scroll_page_by_id, take_ge by (rewrite by_id_length; lia).
    apply (list_elem_of_fmap_2 (λ ip, mkRecord ip.1 (pt_payload ip.2)) _ (i, p)).
    by apply by_id_elem_of. }
  destruct (Forall2_in_l _ _ _ _ H2 Hin) as (y & Hy & Hxy).
  unfold unranked in Hxy. cbn in Hxy. rewrite Ht in Hxy. by injection Hxy as <-.
Qed.

(** X12: when the store answers and every point has a text, the listing
    without a query shows min(count, 10) notes, each the text of a stored
    point with score [None]; when the collection has at most 10 points it
    shows every one of them. *)
Theorem list_notes_shows_stored w col :
  store_answers w →
  qdrant w !! QDRANT_COLLECTION_NAME = Some col →
  all_texts col →
  ∃ rs,
    (list_notes None w).1 = Ret rs
    ∧ length rs = (size (col_points col) `min` 10)%nat
    ∧ (∀ r, r ∈ rs →
         nr_score r = None
         ∧ ∃ i p, col_points col !! i = Some p ∧ pt_payload p !! "text" = Some (nr_text r))
    ∧ ((size (col_points col) ≤ 10)%nat →
         ∀ i p t, col_points col !! i = Some p → pt_payload p !! "text" = Some t →
                  mkNoteResult t None ∈ rs).
Proof.
  intros Hans Hcol Hall.
  destruct (list_notes_unranked embedding_provider similarity None w) as (w' & Hrun & _);
    [done|].
  exists (listed w). rewrite Hrun. split; [done|].
  pose proof (listed_all w col Hans Hcol Hall) as H2.
  split_and!.
  - rewrite <-(Forall2_length _ _ _ H2). apply scroll_page_length.
  - intros r Hr. destruct (Forall2_in_r _ _ _ _ H2 Hr) as (x & Hx & Hxr).
    apply scroll_page_stored in Hx as (p & Hp & Hpay).
    unfold unranked in Hxr. rewrite Hpay in Hxr.
    destruct (pt_payload p !! "text") as [t|] eqn:Ht; [|done].
    injection Hxr as <-. split; [done|]. by exists (rec_id x), p.
  - intros Hsmall i p t Hp Ht.
    assert (Hin : mkRecord i (pt_payload p) ∈ scroll_page col).
    { rewrite scroll_page_by_id, take_ge by (rewrite by_id_length; lia).
      apply (list_elem_of_fmap_2 (λ ip, mkRecord ip.1 (pt_payload ip.2)) _ (i, p)).
      by apply by_id_elem_of. }
    destruct (Forall2_in_l _ _ _ _ H2 Hin) as (y & Hy & Hxy).
    unfold unranked in Hxy. cbn in Hxy. rewrite Ht in Hxy. by injection Hxy as <-.
Qed.

(** X13: one point without a text hides all notes.  When the page that
    [scroll] yields holds a point whose payload has no "text", the
    [KeyError] of the loop is swallowed and the listing is empty. *)
Theorem list_notes_hidden_by_missing_text w col r :
  qdrant w !! QDRANT_COLLECTION_NAME = Some col →
  r ∈ scroll_page col →
  rec_payload r !! "text" = None →
  (list_notes None w).1 = Ret [].
Proof.
  intros Hcol Hr Hnone.
  destruct (list_notes_unranked embedding_provider similarity None w) as (w' & Hrun & _);
    [done|].
  rewrite Hrun. cbn [fst]. f_equal. unfold listed. rewrite Hcol.
  destruct (client_of w); [|done]. destruct (outage_next _); [done|].
  assert (Hm : mapM unranked (scroll_page col) = None).
  { apply mapM_None_2, Exists_exists. exists r. split; [done|].
    unfold unranked. by rewrite Hnone. }
  by rewrite Hm.
Qed.

Lemma add_note_cache text w :
  client_cache (add_note text w).2 = Some (client_of w).
Proof.
  rewrite add_note_spec. cbv zeta.
  pose proof (connected_cache (add_log (EvInvoke OpAddNote) w)) as Hc.
  change (client_of (add_log (EvInvoke OpAddNote) w)) with (client_of w) in Hc.
  repeat case_match; exact Hc.
Qed.

(** X14: a note that was added is listed.  After [add_note_to_db] returned
    [True] in a collection of fewer than 10 points that all have a text,
    the next listing without a query, when the store answers it, holds the
    text of the note with score [None]. *)
Theorem added_note_is_listed text w w' col :
  add_note text w = (Ret true, w') →
  qdrant w !! QDRANT_COLLECTION_NAME = Some col →
  all_texts col →
  (size (col_points col) < 10)%nat →
  outage_next w' = false →
  ∃ rs, (list_notes None w').1 = Ret rs ∧ mkNoteResult text None ∈ rs.
Proof.
  intros Hrun Hcol Hall Hsize Hout.
  assert (Hok : (add_note text w).1 = Ret true) by by rewrite Hrun.
  assert (Hstore : qdrant w' = with_note embedding_provider text w).
  { pose proof (add_note_true_store embedding_provider text w Hok) as H.
    by rewrite Hrun in H. }
  assert (Hcache : client_cache w' = Some (client_of w)).
  { pose proof (add_note_cache text w) as H. by rewrite Hrun in H. }
  apply add_note_true_iff in Hok as ([c Hc] & _).
  rewrite Hc in Hcache.
  assert (Hans : store_answers w').
  { unfold store_answers, client_of, connected. rewrite Hcache. split; [by eexists|done]. }
  unfold with_note in Hstore. rewrite Hcol in Hstore.
  set (p := mkPoint (embedding_of embedding_provider text) {["text" := text]}) in *.
  set (col' := mkCollection (col_config col) (<[point_count w + 1 := p]> (col_points col))) in *.
  assert (Hcol' : qdrant w' !! QDRANT_COLLECTION_NAME = Some col').
  { by rewrite Hstore, lookup_insert_eq. }
  assert (Hall' : all_texts col').
  { intros i q. subst col'. cbn. rewrite lookup_insert.
    case_decide; [|by apply Hall]. intros [= <-]. subst p. cbn.
    rewrite lookup_singleton_eq. by eexists. }
  destruct (list_notes_shows_stored_aux w' col' Hans Hcol' Hall') as (rs & Hrs & Hin).
  exists rs. split; [done|]. apply (Hin (point_count w + 1) p).
  - subst col'. cbn. rewrite map_size_insert.
    destruct (col_points col !! (point_count w + 1)); cbn; lia.
  - subst col'. cbn. apply lookup_insert_eq.
  - subst p. cbn. apply lookup_singleton_eq.
Qed.

(** *** What the page stores *)

(** The two texts of the draft hold strings. *)
Definition typed_session (ss : gmap string PyVal) : Prop :=
  ∀ k v, k = "note_text" ∨ k = "note_audio_text" → ss !! k = Some v → ∃ s, v = PyStr s.

(** An upsert of one note: one point, for the notes collection, whose
    payload is a text that is not empty. *)
Definition whole_note (r : Request) : Prop :=
  match r with
  | ReqUpsert name pts =>
      name = QDRANT_COLLECTION_NAME
      ∧ ∃ id v t, pts = [mkPointStruct id v {["text" := t]}] ∧ t ≠ ""
  | _ => True
  end.

Definition page_inv (w : World) : Prop :=
  typed_session (session_state w) ∧ Forall whole_note (requests (log w)).

Lemma typed_insert_str k s (ss : gmap string PyVal) :
  typed_session ss → typed_session (<[k := PyStr s]> ss).
Proof.
  intros H k' v Hk'. rewrite lookup_insert. case_decide; [|by apply H].
  intros [= <-]. by eexists.
Qed.

Lemma typed_insert_other k v (ss : gmap string PyVal) :
  k ≠ "note_text" → k ≠ "note_audio_text" →
  typed_session ss → typed_session (<[k := v]> ss).
Proof.
  intros H1 H2 H k' v' Hk'. rewrite lookup_insert_ne; [by apply H|].
  destruct Hk' as [->| ->]; done.
Qed.

Lemma typed_default_str k s (ss : gmap string PyVal) :
  typed_session ss → typed_session (session_default k (PyStr s) ss).
Proof.
  intros H. unfold session_default. destruct (ss !! k); [done|].
  by apply typed_insert_str.
Qed.

Lemma typed_default_other k v (ss : gmap string PyVal) :
  k ≠ "note_text" → k ≠ "note_audio_text" →
  typed_session ss → typed_session (session_default k v ss).
Proof.
  intros H1 H2 H. unfold session_default. destruct (ss !! k); [done|].
  by apply typed_insert_other.
Qed.

Lemma typed_capture mp3 (ss : gmap string PyVal) :
  typed_session ss → typed_session (capture_audio md5 mp3 ss).
Proof.
  intros H. unfold capture_audio. case_bool_decide.
  - apply typed_insert_other; [done..|]. do 2 apply typed_insert_str.
    by apply typed_insert_other.
  - by apply typed_insert_other.
Qed.

Lemma typed_clear_form (ss : gmap string PyVal) :
  typed_session ss → typed_session (clear_form ss).
Proof.
  intros H. unfold clear_form. apply typed_insert_other; [done..|].
  by do 2 apply typed_insert_str.
Qed.

Lemma page_inv_sent r w : whole_note r → page_inv w → page_inv (sent r w).
Proof.
  intros Hr [Ht Hl]. split; [done|]. rewrite sent_requests.
  apply Forall_app. split; [done|]. by constructor.
Qed.

Lemma page_inv_connected w : page_inv w → page_inv (connected w).
Proof.
  intros H. unfold connected. destruct (client_cache w); [done|].
  by destruct (page_inv_sent ReqGetCollections w I H).
Qed.

Lemma page_inv_invoke op w : page_inv w → page_inv (add_log (EvInvoke op) w).
Proof. intros [Ht Hl]. split; [done|]. cbn. by rewrite requests_app, app_nil_r. Qed.

Lemma page_inv_session f w :
  (∀ ss, typed_session ss → typed_session (f ss)) →
  page_inv w → page_inv (set_session_state f w).
Proof. intros Hf [Ht Hl]. split; [by apply Hf|done]. Qed.

Ltac typed_side :=
  first
    [ apply typed_insert_str; assumption
    | apply typed_insert_other; [done|done|assumption]
    | apply typed_default_str; assumption
    | apply typed_default_other; [done|done|assumption]
    | apply typed_capture; assumption
    | apply typed_clear_form; assumption ].

Ltac page_side :=
  first
    [ intros ? ?; apply page_inv_sent; [exact I|assumption]
    | intros ? ?; apply page_inv_connected; assumption
    | intros ? ?; apply page_inv_invoke; assumption
    | intros ? ?; apply page_inv_session; [intros ? ?; typed_side|assumption]
    | intros ? ?; assumption ].

Lemma keeps_page_add_note text : text ≠ "" → keeps page_inv (add_note text).
Proof.
  intros Hne.
  unfold add_note_to_db, add_note_body, get_embedding, OpenAI.embeddings_create,
    Qdrant.count_points, Qdrant.upsert.
  repeat keeps_step
    ltac:(first [ page_side
                | intros ? ?; apply page_inv_sent; [|assumption];
                  split; [done|]; by eexists _, _, _ ]).
Qed.

Lemma keeps_page_list_notes query : keeps page_inv (list_notes query).
Proof.
  unfold list_notes_from_db, list_notes_body, get_embedding, OpenAI.embeddings_create,
    Qdrant.scroll, Qdrant.search, payload_text.
  repeat keeps_step page_side.
Qed.

Lemma keeps_page_bootstrap i : keeps page_inv (bootstrap i).
Proof.
  unfold bootstrap, cache_resource_clear, api_key_gate, init_session, session_set,
    assure_db_collection_exists, the_client, Qdrant.collection_exists,
    Qdrant.create_collection.
  repeat keeps_step page_side.
Qed.

Lemma keeps_page_add_tab i : keeps page_inv (the_add_tab i).
Proof.
  unfold add_tab. destruct (in_recording i) as [mp3|]; [|apply keeps_ret].
  apply keeps_bind; [keeps_step page_side|intros _].
  apply keeps_bind.
  { unfold transcribe_audio, OpenAI.transcriptions_create, session_set.
    repeat keeps_step page_side. }
  intros _. apply keeps_bind; [apply keeps_session_item|intros audio_text].
  apply keeps_bind.
  { unfold session_set. repeat keeps_step page_side. }
  intros _. apply keeps_bind_item. intros note_text (w & [Ht _] & Hv).
  destruct (Ht "note_text" note_text) as [s ->]; [by left|done|].
  destruct (truthy (PyStr s)) eqn:Hs; cbn [andb]; [|apply keeps_ret].
  destruct (in_save i); [|apply keeps_ret].
  apply keeps_bind.
  - apply keeps_page_add_note. cbn in *. intros ->. done.
  - intros saved. repeat keeps_step page_side.
Qed.

Lemma keeps_page_main i : keeps page_inv (the_main i).
Proof.
  unfold main. apply keeps_bind; [apply keeps_page_bootstrap|intros _].
  apply keeps_bind; [apply keeps_page_add_tab|intros _].
  unfold search_tab. destruct (in_search i); [apply keeps_page_list_notes|apply keeps_ret].
Qed.

(** X15: the page never stores an empty note.  Over every series of runs
    that starts with strings as draft texts, the draft texts stay strings
    and every upsert that is requested is for the notes collection and
    holds one point whose payload is a text that is not empty. *)
Theorem page_never_stores_empty_note ins w :
  typed_session (session_state w) →
  Forall whole_note (requests (log w)) →
  typed_session (session_state (the_runs w ins))
  ∧ Forall whole_note (requests (log (the_runs w ins))).
Proof.
  intros Ht Hl. assert (Hinv : page_inv w) by done. clear Ht Hl.
  revert w Hinv. induction ins as [|i ins IH]; intros w Hinv; [done|].
  cbn [runs foldl]. apply IH. unfold run. by apply keeps_page_main.
Qed.

(** *** Saving the draft *)

Lemma truthy_str s : s ≠ "" → truthy (PyStr s) = true.
Proof. intros H. cbn. apply String.eqb_neq in H. by rewrite H. Qed.

(** The add tab when a transcript is there and the save button is
    pressed: the edited text is written to the session and
    [add_note_to_db] is called with it. *)
Lemma add_tab_save i w mp3 t :
  in_recording i = Some mp3 → in_transcribe i = false → in_save i = true →
  capture_audio md5 mp3 (session_state w) !! "note_audio_text" = Some (PyStr t) →
  t ≠ "" → default t (in_edit i) ≠ "" →
  let e := default t (in_edit i) in
  let w2 := set_session_state
              (λ ss, <["note_text" := PyStr e]> (capture_audio md5 mp3 ss)) w in
  the_add_tab i w =
    match add_note e w2 with
    | (Ret true, w3) => (Ret tt, set_session_state clear_form w3)
    | (Ret false, w3) => (Ret tt, w3)
    | (Raise x, w3) => (Raise x, w3)
    | (Halt c, w3) => (Halt c, w3)
    end.
Proof.
  intros Hrec Htr Hsave Ht Hne He e w2.
  unfold add_tab. rewrite Hrec, Htr, Hsave.
  unfold bind at 1. unfold modify at 1.
  unfold bind at 1. unfold ret at 1.
  unfold bind at 1. unfold session_item at 1. unfold bind at 1. unfold get_world at 1.
  cbn [session_state set_session_state]. rewrite Ht. unfold ret at 1.
  rewrite (truthy_str t Hne).
  unfold bind at 1. unfold session_set at 1. unfold modify at 1.
  unfold bind at 1. unfold session_item at 1. unfold bind at 1. unfold get_world at 1.
  cbn [session_state set_session_state]. rewrite lookup_insert_eq. unfold ret at 1.
  cbn [as_str]. fold e. rewrite (truthy_str e He). cbn [andb].
  unfold bind at 1.
  change (set_session_state (insert "note_text" (PyStr e))
            (set_session_state (capture_audio md5 mp3) w)) with w2.
  destruct (add_note e w2) as [[[]|x|c] w3]; done.
Qed.

(** X16: a save that succeeds empties the form, one that fails keeps the
    draft.  With a transcript in the session and the save button pressed,
    [add_note_to_db] gets the edited text, or the transcript when nothing
    was edited.  When it returns [True] the two texts are emptied and the
    remembered MD5 is forgotten; when it returns [False] the session still
    holds the text and the transcript, ready for another try. *)
Theorem save_clears_or_keeps_draft i w mp3 t :
  in_recording i = Some mp3 → in_transcribe i = false → in_save i = true →
  capture_audio md5 mp3 (session_state w) !! "note_audio_text" = Some (PyStr t) →
  t ≠ "" → default t (in_edit i) ≠ "" →
  let e := default t (in_edit i) in
  let w2 := set_session_state
              (λ ss, <["note_text" := PyStr e]> (capture_audio md5 mp3 ss)) w in
  let ss' := session_state (the_add_tab i w).2 in
  qdrant (the_add_tab i w).2 = qdrant (add_note e w2).2
  ∧ ((add_note e w2).1 = Ret true →
       (the_add_tab i w).1 = Ret tt
       ∧ ss' !! "note_text" = Some (PyStr "")
       ∧ ss' !! "note_audio_text" = Some (PyStr "")
       ∧ ss' !! "note_audio_bytes_md5" = Some PyNone
       ∧ ss' !! "note_audio_bytes" = Some (PyBytes mp3))
  ∧ ((add_note e w2).1 = Ret false →
       (the_add_tab i w).1 = Ret tt
       ∧ ss' !! "note_text" = Some (PyStr e)
       ∧ ss' !! "note_audio_text" = Some (PyStr t)
       ∧ ss' !! "note_audio_bytes_md5" = Some (PyStr (md5 mp3))
       ∧ ss' !! "note_audio_bytes" = Some (PyBytes mp3)).
Proof.
  intros Hrec Htr Hsave Ht Hne He e w2 ss'. subst ss'.
  rewrite (add_tab_save i w mp3 t Hrec Htr Hsave Ht Hne He). fold e w2.
  pose proof (add_note_session e w2) as Hs.
  assert (Hbytes : capture_audio md5 mp3 (session_state w) !! "note_audio_bytes"
                   = Some (PyBytes mp3)).
  { unfold capture_audio. case_bool_decide; by simplify_map_eq. }
  assert (Hmd5 : capture_audio md5 mp3 (session_state w) !! "note_audio_bytes_md5"
                 = Some (PyStr (md5 mp3))).
  { unfold capture_audio. case_bool_decide as Hd; [by simplify_map_eq|].
    rewrite lookup_insert_ne by done. unfold py_get in Hd.
    rewrite lookup_insert_ne in Hd by done.
    destruct (session_state w !! "note_audio_bytes_md5"); by simplify_eq/=. }
  destruct (add_note e w2) as [[[]|x|c] w3]; cbn [fst snd] in *.
  - split; [done|]. split; [|done]. intros _.
    cbn [session_state set_session_state]. rewrite Hs. unfold clear_form.
    subst w2. cbn [session_state set_session_state].
    split_and!; [done|by simplify_map_eq..|].
    by rewrite !lookup_insert_ne.
  - split; [done|]. split; [done|]. intros _. rewrite Hs.
    subst w2. cbn [session_state set_session_state].
    split_and!; [done|by simplify_map_eq|..]; by rewrite lookup_insert_ne.
  - by split_and!.
  - by split_and!.
Qed.

(** *** More on searching, transcribing and the bootstrap *)

(** X17: one hit without a text empties a search.  When the top hits for
    the query hold a point whose payload has no "text", and also when the
    embedded query does not have the collection's size, the search returns
    the empty list. *)
Theorem search_hidden_by_missing_text q w col :
  q ≠ "" →
  keyed w →
  qdrant w !! QDRANT_COLLECTION_NAME = Some col →
  ((∃ h, h ∈ top_hits similarity col (embedding_of embedding_provider q)
         ∧ sp_payload h !! "text" = None)
   ∨ Qdrant.fits (col_config col) (embedding_of embedding_provider q) = false) →
  (list_notes (Some q) w).1 = Ret [].
Proof.
  intros Hq Hkey Hcol Hbad.
  rewrite (list_notes_ranked embedding_provider similarity q w Hq). cbv zeta.
  unfold keyed in Hkey. rewrite Hkey.
  destruct (client_of w); [|done]. destruct (outage_next _); [done|].
  destruct (embedding_provider [q] EMBEDDING_MODEL EMBEDDING_DIM) as [|v l] eqn:Hv; [done|].
  assert (Hemb : embedding_of embedding_provider q = v)
    by (unfold embedding_of; by rewrite Hv).
  rewrite Hemb in Hbad. cbn [fst]. f_equal. unfold found.
  destruct (outage_next _); [done|].
  rewrite sent_qdrant, connected_qdrant. cbn [qdrant add_log]. rewrite Hcol.
  destruct Hbad as [(h & Hh & Hnone)| ->]; [|done].
  destruct (Qdrant.fits _ _); [|done].
  assert (Hm : mapM (ranked_note) (top_hits similarity col v) = None).
  { apply mapM_None_2, Exists_exists. exists h. split; [done|].
    unfold ranked_note. by rewrite Hnone. }
  by rewrite Hm.
Qed.

(** X18: a transcript becomes the draft.  When the recording is
    transcribed and the request is answered, the session holds the text of
    the answer as transcript; when that text is not empty the note text is
    what the user typed in the text area, or the transcript itself when
    nothing was typed.  Nothing is saved in such a run without the save
    button, and the store is not touched. *)
Theorem transcript_becomes_draft i w mp3 :
  in_recording i = Some mp3 → in_transcribe i = true → in_save i = false →
  keyed w → outage_next w = false →
  let t := transcription_provider mp3 "whisper-1" in
  t ≠ "" →
  ∃ w',
    the_add_tab i w = (Ret tt, w')
    ∧ session_state w' !! "note_audio_text" = Some (PyStr t)
    ∧ session_state w' !! "note_text" = Some (PyStr (default t (in_edit i)))
    ∧ session_state w' !! "note_audio_bytes" = Some (PyBytes mp3)
    ∧ requests (log w') = requests (log w) ++ [ReqTranscription mp3 "whisper-1" "verbose_json"]
    ∧ invocations (log w') = invocations (log w)
    ∧ qdrant w' = qdrant w.
Proof.
  intros Hrec Htr Hsave Hkey Hout t Ht.
  unfold add_tab. rewrite Hrec, Htr, Hsave.
  unfold bind at 1. unfold modify at 1.
  set (w1 := set_session_state (capture_audio md5 mp3) w).
  unfold bind at 1. unfold bind at 1. rewrite transcribe_audio_spec.
  unfold keyed in Hkey. subst w1. rewrite capture_keyed, Hkey.
  change (outage_next (set_session_state ?f w)) with (outage_next w). rewrite Hout.
  change (transcription_provider mp3 AUDIO_TRANSCRIBE_MODEL) with t.
  unfold session_set at 1. unfold modify at 1.
  unfold bind at 1. unfold session_item at 1. unfold bind at 1. unfold get_world at 1.
  cbn [session_state set_session_state sent add_log set_outages].
  rewrite lookup_insert_eq. unfold ret at 1.
  rewrite (truthy_str t Ht).
  unfold bind at 1. unfold session_set at 1. unfold modify at 1.
  unfold bind at 1. unfold session_item at 1. unfold bind at 1. unfold get_world at 1.
  cbn [session_state set_session_state sent add_log set_outages].
  rewrite lookup_insert_eq. unfold ret at 1.
  rewrite andb_false_r. cbn [as_str].
  eexists. split; [done|].
  cbn [session_state qdrant log set_session_state sent add_log set_outages].
  split_and!.
  - by simplify_map_eq.
  - by simplify_map_eq.
  - rewrite !lookup_insert_ne by done. unfold capture_audio. case_bool_decide; by simplify_map_eq.
  - by rewrite requests_app.
  - by rewrite invocations_app, app_nil_r.
  - done.
Qed.

(** X19: the existence check is made in every run and its failure is not
    memoized.  With a client memoized, a key in the session and the
    collection in place, the bootstrap sends exactly the existence check.
    When it is not answered the run stops, but the memo keeps the client,
    so the next run asks again and passes when it is answered. *)
Theorem existence_check_every_run i w c :
  in_clear_cache i = false →
  truthy (py_get (session_state w) "openai_api_key") = true →
  client_cache w = Some (Some c) →
  is_Some (qdrant w !! QDRANT_COLLECTION_NAME) →
  ∃ w',
    bootstrap i w = (if outage_next w then Halt CtlStop else Ret tt, w')
    ∧ requests (log w') = requests (log w) ++ [ReqCollectionExists QDRANT_COLLECTION_NAME]
    ∧ client_cache w' = Some (Some c)
    ∧ qdrant w' = qdrant w
    ∧ outages w' = tail (outages w)
    ∧ truthy (py_get (session_state w') "openai_api_key") = true.
Proof.
  intros Hclear Hkey Hcache [col Hcol].
  destruct (bootstrap_pass i w Hclear Hkey) as (wi & Hsame & Hkey' & ->).
  destruct Hsame as (Hq & Ho & Hc & Hs & Hd & Hl).
  rewrite Hcache in Hc.
  assert (Hconn : connected wi = wi) by (unfold connected; by rewrite Hc).
  assert (Hcl : client_of wi = Some c) by (unfold client_of; by rewrite Hc).
  assert (Hon : outage_next wi = outage_next w) by (unfold outage_next; by rewrite Ho).
  rewrite assure_spec. cbv zeta. rewrite Hcl, Hconn, Hon, Hq, Hcol.
  exists (sent (ReqCollectionExists QDRANT_COLLECTION_NAME) wi). split.
  { by destruct (outage_next w). }
  rewrite sent_requests, sent_outages, Hl, Ho. by split_and!.
Qed.

End Extras.

(** ** The further properties on the sample worlds *)

(** A session with a transcript for the recording [rec1], in the booted
    world. *)
Definition rec1 : list Byte.byte := [Byte.x01; Byte.x02].

Definition draft_world : World :=
  set_session_state
    (λ ss, <["note_audio_text" := PyStr "buy milk"]>
             (<["note_text" := PyStr "buy milk"]>
                (<["note_audio_bytes_md5" := PyStr (sample_md5 rec1)]> ss)))
    booted_world.

(** The booted world with one point that has no text. *)
Definition untexted_world : World :=
  set_qdrant (λ _, {[QDRANT_COLLECTION_NAME :=
                       mkCollection (mkVectorParams EMBEDDING_DIM COSINE)
                         {[1 := mkPoint (replicate 3072 0%Q) ∅]}]})
             booted_world.

(** A world in which only [st.secrets] holds an OpenAI key. *)
Definition secret_world : World :=
  mkWorld ∅ [] None {["OPENAI_API_KEY" := "sk-secret"]} ∅ ∅ [].

(** The store answers the bootstrap and then no more. *)
Definition flaky_world : World := set_outages [false; false; false; true] fresh_world.

Definition transcribe_input : Inputs :=
  mkInputs false "" (Some rec1) true None false "" false.
Definition transcribe_save_search_input : Inputs :=
  mkInputs false "" (Some rec1) true None true "milk" true.
Definition save_input : Inputs :=
  mkInputs false "" (Some rec1) false (Some "buy oat milk") true "" false.

(** X3 on a concrete input. *)
Lemma transcribe_audio_calls_client_witness :
  keyed fresh_world
  ∧ ∃ o w', transcribe_audio sample_transcription rec1 fresh_world = (o, w')
            ∧ o = Ret "buy milk".
Proof.
  assert (Hk : keyed fresh_world) by (vm_compute; reflexivity).
  split; [exact Hk|].
  destruct (transcribe_audio_calls_client sample_transcription rec1 fresh_world Hk)
    as (o & w' & Hrun & _ & Hret & _).
  exists o, w'. split; [exact Hrun|]. apply Hret. vm_compute; reflexivity.
Defined.

(** X4 on a concrete input: the transcription is not answered although
    save and search are pressed. *)
Lemma failed_transcription_ends_run_witness :
  ∃ w2, sample_main transcribe_save_search_input flaky_world = (Raise ConnectionFailed, w2)
        ∧ invocations (log w2) = [].
Proof.
  assert (Hb1 : (bootstrap transcribe_save_search_input flaky_world).1 = Ret tt)
    by (vm_compute; reflexivity).
  destruct (bootstrap transcribe_save_search_input flaky_world) as [o w1] eqn:Hboot.
  cbn [fst] in Hb1. subst o.
  assert (Hout : outage_next w1 = true).
  { change w1 with (Ret tt, w1).2. rewrite <-Hboot. vm_compute; reflexivity. }
  assert (Hinv : invocations (log w1) = []).
  { change w1 with (Ret tt, w1).2. rewrite <-Hboot. vm_compute; reflexivity. }
  destruct (failed_transcription_ends_run sample_md5 sample_embedding sample_transcription
              sample_similarity transcribe_save_search_input flaky_world w1 rec1
              Hboot eq_refl eq_refl Hout)
    as (w2 & Hrun & Hinv2 & _).
  exists w2. split; [exact Hrun|]. rewrite Hinv2. exact Hinv.
Defined.

(** X6 on a concrete input. *)
Lemma secret_key_does_not_open_gate_witness :
  keyed secret_world
  ∧ ∃ w', sample_main no_input secret_world = (Halt CtlStop, w') ∧ log w' = [].
Proof.
  split; [vm_compute; reflexivity|].
  destruct (secret_key_does_not_open_gate sample_md5 sample_embedding sample_transcription
              sample_similarity no_input secret_world eq_refl eq_refl eq_refl eq_refl)
    as (w' & Hrun & Hlog & _).
  exists w'. split; [exact Hrun|exact Hlog].
Defined.

(** X8 on a concrete input. *)
Lemma bootstrap_establishes_witness :
  ∃ w', bootstrap no_input fresh_world = (Ret tt, w')
        ∧ qdrant w' !! QDRANT_COLLECTION_NAME = Some fresh_collection.
Proof.
  assert (Hb1 : (bootstrap no_input fresh_world).1 = Ret tt) by (vm_compute; reflexivity).
  destruct (bootstrap no_input fresh_world) as [o w1] eqn:Hboot.
  cbn [fst] in Hb1. subst o. exists w1. split; [reflexivity|].
  destruct (bootstrap_establishes no_input fresh_world w1 Hboot)
    as (_ & _ & _ & _ & _ & _ & Hfresh).
  apply Hfresh. vm_compute; reflexivity.
Defined.

(** X11 on a concrete input. *)
Lemma add_note_succeeds_when_answered_witness :
  (sample_add "buy milk" booted_world).1 = Ret true.
Proof.
  apply (add_note_succeeds_when_answered sample_embedding "buy milk" booted_world
           fresh_collection sample_contract).
  - vm_compute; reflexivity.
  - reflexivity.
  - vm_compute. eexists; reflexivity.
  - vm_compute; reflexivity.
  - apply answered_nil. vm_compute; reflexivity.
Defined.

(** The collection of [one_note_world]. *)
Definition one_note_collection : Collection :=
  mkCollection (mkVectorParams EMBEDDING_DIM COSINE)
    {[1 := mkPoint (embedding_of sample_embedding "buy milk") {["text" := "buy milk"]}]}.

Lemma one_note_collection_texts : all_texts one_note_collection.
Proof.
  intros i p H. unfold one_note_collection in H. cbn [col_points] in H.
  apply lookup_singleton_Some in H as [<- <-]. cbn. rewrite lookup_singleton_eq. by eexists.
Qed.

Lemma one_note_world_answers : store_answers one_note_world.
Proof. split; [vm_compute; eexists; reflexivity|vm_compute; reflexivity]. Qed.

(** X12 on a concrete input. *)
Lemma list_notes_shows_stored_witness :
  ∃ rs, (sample_list None one_note_world).1 = Ret rs
        ∧ length rs = 1%nat
        ∧ mkNoteResult "buy milk" None ∈ rs.
Proof.
  assert (Hcol : qdrant one_note_world !! QDRANT_COLLECTION_NAME = Some one_note_collection)
    by (vm_compute; reflexivity).
  destruct (list_notes_shows_stored sample_embedding sample_similarity one_note_world
              one_note_collection one_note_world_answers Hcol one_note_collection_texts)
    as (rs & Hrun & Hlen & _ & Hall).
  exists rs. split; [exact Hrun|]. split; [exact Hlen|].
  apply (Hall ltac:(vm_compute; lia) 1
           (mkPoint (embedding_of sample_embedding "buy milk") {["text" := "buy milk"]}));
    reflexivity.
Defined.

(** X13 on a concrete input. *)
Lemma list_notes_hidden_by_missing_text_witness :
  (sample_list None untexted_world).1 = Ret [].
Proof.
  apply (list_notes_hidden_by_missing_text sample_embedding sample_similarity untexted_world
           (mkCollection (mkVectorParams EMBEDDING_DIM COSINE)
              {[1 := mkPoint (replicate 3072 0%Q) ∅]})
           (mkRecord 1 ∅)).
  - vm_compute; reflexivity.
  - vm_compute. apply list_elem_of_here.
  - reflexivity.
Defined.

(** X14 on a concrete input. *)
Lemma added_note_is_listed_witness :
  ∃ rs, (sample_list None one_note_world).1 = Ret rs
        ∧ mkNoteResult "buy milk" None ∈ rs.
Proof.
  assert (Hok : (sample_add "buy milk" booted_world).1 = Ret true)
    by (vm_compute; reflexivity).
  assert (Hrun : sample_add "buy milk" booted_world = (Ret true, one_note_world)).
  { unfold one_note_world. destruct (sample_add "buy milk" booted_world) as [o w'].
    cbn [fst] in Hok. by subst o. }
  apply (added_note_is_listed sample_embedding sample_similarity "buy milk" booted_world
           one_note_world fresh_collection Hrun).
  - vm_compute; reflexivity.
  - intros i p H. unfold fresh_collection in H. cbn [col_points] in H.
    by rewrite lookup_empty in H.
  - vm_compute; lia.
  - vm_compute; reflexivity.
Defined.

Lemma fresh_world_typed : typed_session (session_state fresh_world).
Proof.
  intros k v [-> | ->] H; vm_compute in H; discriminate H.
Qed.

(** X15 on a concrete input: a run that records, transcribes and saves,
    and a second run. *)
Lemma page_never_stores_empty_note_witness :
  Forall whole_note
    (requests (log (runs sample_md5 sample_embedding sample_transcription sample_similarity
                      fresh_world [transcribe_save_search_input; save_input]))).
Proof.
  apply (page_never_stores_empty_note sample_md5 sample_embedding sample_transcription
           sample_similarity [transcribe_save_search_input; save_input] fresh_world
           fresh_world_typed).
  vm_compute. constructor.
Defined.

(** X16 on a concrete input: the edited text is saved and the form is
    emptied. *)
Lemma save_clears_or_keeps_draft_witness :
  let w' := (add_tab sample_md5 sample_embedding sample_transcription save_input
               draft_world).2 in
  session_state w' !! "note_text" = Some (PyStr "")
  ∧ session_state w' !! "note_audio_bytes_md5" = Some PyNone.
Proof.
  destruct (save_clears_or_keeps_draft sample_md5 sample_embedding sample_transcription
              save_input draft_world rec1 "buy milk"
              eq_refl eq_refl eq_refl
              ltac:(vm_compute; reflexivity) ltac:(discriminate) ltac:(discriminate))
    as (_ & Hsaved & _).
  destruct Hsaved as (_ & Htext & _ & Hmd5 & _); [vm_compute; reflexivity|].
  split; [exact Htext|exact Hmd5].
Defined.

(** X17 on a concrete input. *)
Lemma search_hidden_by_missing_text_witness :
  (sample_list (Some "milk") untexted_world).1 = Ret [].
Proof.
  apply (search_hidden_by_missing_text sample_embedding sample_similarity "milk"
           untexted_world
           (mkCollection (mkVectorParams EMBEDDING_DIM COSINE)
              {[1 := mkPoint (replicate 3072 0%Q) ∅]})).
  - discriminate.
  - vm_compute; reflexivity.
  - vm_compute; reflexivity.
  - left. eexists. split; [vm_compute; apply list_elem_of_here|reflexivity].
Defined.

(** X18 on a concrete input. *)
Lemma transcript_becomes_draft_witness :
  ∃ w', add_tab sample_md5 sample_embedding sample_transcription transcribe_input
          booted_world = (Ret tt, w')
        ∧ session_state w' !! "note_text" = Some (PyStr "buy milk").
Proof.
  destruct (transcript_becomes_draft sample_md5 sample_embedding sample_transcription
              transcribe_input booted_world rec1 eq_refl eq_refl eq_refl
              ltac:(vm_compute; reflexivity) ltac:(vm_compute; reflexivity)
              ltac:(discriminate))
    as (w' & Hrun & _ & Htext & _).
  exists w'. split; [exact Hrun|exact Htext].
Defined.

(** X19 on a concrete input. *)
Lemma existence_check_every_run_witness :
  ∃ w', bootstrap no_input booted_world = (Ret tt, w')
        ∧ requests (log w')
          = requests (log booted_world) ++ [ReqCollectionExists QDRANT_COLLECTION_NAME].
Proof.
  destruct (existence_check_every_run no_input booted_world (mkQdrantClient None None)
              eq_refl ltac:(vm_compute; reflexivity) ltac:(vm_compute; reflexivity)
              ltac:(vm_compute; eexists; reflexivity))
    as (w' & Hrun & Hreq & _).
  exists w'. split; [exact Hrun|exact Hreq].
Defined.
